(** * A crawl orchestrator with summarisation: model and verified properties

    The development embeds the Go packages [summarizer] and [crawler] of the
    web crawler.  Go strings are byte strings and are modelled by [string];
    Go's [int] and [time.Duration] by [Z]; channels, goroutines and the
    cancellation context by an explicit transition system. *)

From Stdlib Require Import ZArith Ascii.
From stdpp Require Import base tactics option list strings gmap relations.

Local Open Scope Z_scope.

(** ** Go's [strings] package, on byte strings *)

Module GoStrings.

(** [len(s)], a Go [int]. *)
Definition len (s : string) : Z := Z.of_nat (String.length s).

(** [s[:n]] and [s[n:]] for [0 <= n <= len(s)]. *)
Fixpoint take (n : nat) (s : string) : string :=
  match n, s with
  | S n', String a s' => String a (take n' s')
  | _, _ => ""
  end.

Fixpoint drop (n : nat) (s : string) : string :=
  match n, s with
  | S n', String _ s' => drop n' s'
  | _, _ => s
  end.

Fixpoint TrimRightFunc (f : ascii → bool) (s : string) : string :=
  match s with
  | String a s' =>
      match TrimRightFunc f s' with
      | "" => if f a then "" else String a ""
      | r => String a r
      end
  | "" => ""
  end.

Fixpoint mem (a : ascii) (cutset : string) : bool :=
  match cutset with
  | String b cutset' => Ascii.eqb a b || mem a cutset'
  | "" => false
  end.

(** [strings.TrimRight(s, cutset)] for a cutset of ASCII bytes. *)
Definition TrimRight (s cutset : string) : string :=
  TrimRightFunc (λ a, mem a cutset) s.

(** [unicode.IsSpace] on UTF-8: [isSpace s] holds when [s] is the
    encoding of one white-space rune. These are the six ASCII ones and
    U+0085, U+00A0, U+1680, U+2000 to U+200A, U+2028, U+2029, U+202F,
    U+205F and U+3000. *)
Definition isSpace (s : string) : bool :=
  match s with
  | String a "" => Ascii.is_space a
  | String a (String b "") =>
      let '(a, b) := (nat_of_ascii a, nat_of_ascii b) in
      (a =? 194)%nat && ((b =? 133)%nat || (b =? 160)%nat)
  | String a (String b (String c "")) =>
      let '(a, b, c) := (nat_of_ascii a, nat_of_ascii b, nat_of_ascii c) in
      (a =? 225)%nat && (b =? 154)%nat && (c =? 128)%nat
      || (a =? 226)%nat && (b =? 128)%nat
         && ((128 <=? c)%nat && (c <=? 138)%nat
             || (c =? 168)%nat || (c =? 169)%nat || (c =? 175)%nat)
      || (a =? 226)%nat && (b =? 129)%nat && (c =? 159)%nat
      || (a =? 227)%nat && (b =? 128)%nat && (c =? 128)%nat
  | _ => false
  end.

(** [strings.TrimLeftFunc(s, unicode.IsSpace)]. The scan decodes one rune
    after the other with [utf8.DecodeRuneInString], which yields a
    white-space rune exactly when the string starts with the encoding of
    one; any other start, also bytes that are not valid UTF-8, ends the
    scan. *)
Fixpoint TrimLeftSpace (s : string) : string :=
  match s with
  | String a s1 =>
      if isSpace (String a "") then TrimLeftSpace s1
      else
        match s1 with
        | String b s2 =>
            if isSpace (String a (String b "")) then TrimLeftSpace s2
            else
              match s2 with
              | String c s3 =>
                  if isSpace (String a (String b (String c "")))
                  then TrimLeftSpace s3 else s
              | "" => s
              end
        | "" => s
        end
  | "" => ""
  end.

(** [strings.TrimRightFunc(s, unicode.IsSpace)]. The scan goes backwards
    with [utf8.DecodeLastRuneInString], which yields a white-space rune
    exactly when the string ends with the encoding of one. So what is left
    of [String a s'] is [a] before what is left of [s'], unless these bytes
    together are one white-space rune. *)
Fixpoint TrimRightSpace (s : string) : string :=
  match s with
  | String a s' =>
      let r := TrimRightSpace s' in
      if isSpace (String a r) then "" else String a r
  | "" => ""
  end.

(** [strings.TrimSpace(s)]: white space as defined by Unicode is removed
    at both ends, for every byte string [s]. The fast path of the Go
    function for ASCII gives the same result. *)
Definition TrimSpace (s : string) : string :=
  TrimRightSpace (TrimLeftSpace s).

Fixpoint HasPrefix (s prefix : string) : bool :=
  match prefix, s with
  | "", _ => true
  | String b p', String a s' => Ascii.eqb a b && HasPrefix s' p'
  | String _ _, "" => false
  end.

(** [strings.Contains(s, substr)]. *)
Fixpoint Contains (s substr : string) : bool :=
  HasPrefix s substr ||
  match s with
  | String _ s' => Contains s' substr
  | "" => false
  end.

Definition lower (a : ascii) : ascii :=
  let n := nat_of_ascii a in
  if (65 <=? n)%nat && (n <=? 90)%nat then ascii_of_nat (n + 32) else a.

(** [strings.ToLower(s)] on ASCII letters. *)
Fixpoint ToLower (s : string) : string :=
  match s with
  | String a s' => String (lower a) (ToLower s')
  | "" => ""
  end.

End GoStrings.

(** ** Package [summarizer] *)

Module Summarizer.
Import GoStrings.

Record OllamaSummarizer := { baseURL : string; model : string }.

Definition NewOllamaSummarizer (baseURL model : string) : OllamaSummarizer :=
  let model := if decide (model = "") then "mistral" else model in
  {| baseURL := baseURL; model := model |}.

Record ollamaRequest := { Model : string; Prompt : string; Stream : bool }.

Record ollamaResponse := { Response : string; Error : string }.

(** The [error] values the package builds with [fmt.Errorf]; the payload
    keeps what the message is formatted from. *)
Inductive error :=
| ErrEmptyText
| ErrMakeRequest (cause : string)
| ErrDecode (cause : string)
| ErrOllama (msg : string)
| ErrAfterAttempts (maxAttempts : nat) (cause : error)
| ErrEmptyResponse.

(** What one HTTP POST to [baseURL/api/generate] does: the transport fails,
    the body is not JSON, or a JSON object is decoded. *)
Inductive post_outcome :=
| PostFails (cause : string)
| DecodeFails (cause : string)
| Decoded (r : ollamaResponse).

(** The server as seen by one [Summarize] call: the outcome of the [k]-th
    POST (counted from 1) of a request body. *)
Definition server := nat → ollamaRequest → post_outcome.

(** Observable effects of [Summarize], in program order. *)
Inductive event :=
| EvPost (attempt : nat) (req : ollamaRequest)
| EvSleep (nanoseconds : Z).

Definition Second : Z := 1000000000.

Definition makeRequest (srv : server) (k : nat) (jsonData : ollamaRequest)
  : ollamaResponse + error :=
  match srv k jsonData with
  | PostFails e => inr (ErrMakeRequest e)
  | DecodeFails e => inr (ErrDecode e)
  | Decoded result =>
      if decide (Error result ≠ "") then inr (ErrOllama (Error result))
      else inl result
  end.

Definition nl : string := String "010" "".

Definition separator : string := nl +:+ "..." +:+ nl.

Definition prompt_head : string :=
  "You are a helpful AI assistant. Create a structured summary of this text with:"
  +:+ nl +:+ nl +:+
  "1. Key Points (3-4 bullet points)" +:+ nl +:+
  "2. Important Terms (3-4 terms with brief explanations)" +:+ nl +:+
  "3. Main Takeaways (2-3 points)" +:+ nl +:+ nl +:+
  "Text: ".

Definition prompt_tail : string :=
  nl +:+ nl +:+ "Remember to be concise and specific.".

(** [fmt.Sprintf] of the prompt template at [text]. *)
Definition prompt_of (text : string) : string :=
  prompt_head +:+ text +:+ prompt_tail.

Definition maxLen : Z := 12000.

Definition maxAttempts : nat := 3.

(** The retry loop [for attempt := 1; attempt <= maxAttempts; attempt++].
    [fuel] is the number of iterations left, [maxAttempts + 1 - attempt].
    The result is [inr err] for a [return] inside the loop and
    [inl summary] for the value of [summary] when the loop is left. *)
Fixpoint attempts (srv : server) (jsonData : ollamaRequest)
    (fuel attempt : nat) : list event * (string + error) :=
  match fuel with
  | O => ([], inl "")
  | S fuel' =>
      match makeRequest srv attempt jsonData with
      | inr err =>
          if decide (attempt = maxAttempts)
          then ([EvPost attempt jsonData],
                inr (ErrAfterAttempts maxAttempts err))
          else
            let '(tr, r) := attempts srv jsonData fuel' (S attempt) in
            (EvPost attempt jsonData
               :: EvSleep (Z.of_nat attempt * Second) :: tr, r)
      | inl resp => ([EvPost attempt jsonData], inl (Response resp))
      end
  end.

(** The step "if text is too long, take first and last parts". *)
Definition firstAndLast (text : string) : string :=
  if maxLen <? len text then
    let firstPart := take (Z.to_nat (maxLen / 2)) text in
    let lastPart := drop (Z.to_nat (len text - maxLen / 2)) text in
    firstPart +:+ separator +:+ lastPart
  else text.

(** The value [reqBody] built for a trimmed and shortened text. *)
Definition reqBody (o : OllamaSummarizer) (text : string) : ollamaRequest :=
  {| Model := model o; Prompt := prompt_of text; Stream := false |}.

(** [Summarize]: the events it performs and the [(string, error)] pair it
    returns ([inl summary] when the error is [nil]).  [json.Marshal] of an
    [ollamaRequest] (two strings and a boolean) cannot fail, so the request
    value stands for its encoding. *)
Definition Summarize (o : OllamaSummarizer) (srv : server) (text : string)
  : list event * (string + error) :=
  let text := TrimSpace text in
  if decide (text = "") then ([], inr ErrEmptyText)
  else
    let text := firstAndLast text in
    let '(tr, r) := attempts srv (reqBody o text) maxAttempts 1 in
    match r with
    | inr err => (tr, inr err)
    | inl summary =>
        if decide (summary = "") then (tr, inr ErrEmptyResponse)
        else (tr, inl summary)
    end.

(** The events of a call whose first [k - 1] requests fail: POSTs 1 to
    [k], with a sleep of [i] seconds after the [i]-th. *)
Definition rounds (req : ollamaRequest) (k : nat) : list event :=
  flat_map (λ i, [EvPost i req; EvSleep (Z.of_nat i * Second)]) (seq 1 (k - 1))
  ++ [EvPost k req].

End Summarizer.

(** ** The interface of Go's [net/url] that the crawler uses

    The crawler is modelled over any implementation of this interface, so
    that the general theorems do not depend on how URLs are parsed. *)

Module NetUrl.

Class Lib := {
  URL : Type;
  (** [url.Parse]; [None] when it returns an error. *)
  Parse : string → option URL;
  (** [URL.IsAbs]. *)
  IsAbs : URL → bool;
  (** [base.ResolveReference(ref)]. *)
  ResolveReference : URL → URL → URL;
  (** [URL.String]. *)
  URLString : URL → string;
  (** The field [URL.Host]. *)
  Host : URL → string
}.

End NetUrl.

(** ** A model of [net/url] on plain URLs

    The model follows [url.Parse], [URL.String] and [URL.ResolveReference] on
    strings built from ASCII letters, digits and the bytes [- . _ ~ : / ? # = &]
    with at most one [#]: no user information, no IPv6 literal, no
    percent-escape. On these strings escaping and unescaping are the identity
    and the fields [RawPath] and [RawFragment] stay empty. [Parse] answers
    [None] on every other string. *)

Module GoUrl.
Import GoStrings.

Record url := {
  Scheme : string;
  Opaque : string;
  Host : string;
  Path : string;
  RawQuery : string;
  ForceQuery : bool;
  OmitHost : bool;
  Fragment : string
}.

Definition is_alpha (c : ascii) : bool :=
  let n := nat_of_ascii c in
  ((97 <=? n) && (n <=? 122) || (65 <=? n) && (n <=? 90))%nat.

Definition is_digit (c : ascii) : bool :=
  let n := nat_of_ascii c in ((48 <=? n) && (n <=? 57))%nat.

Definition plain (c : ascii) : bool :=
  is_alpha c || is_digit c || mem c "-._~:/?#=&".

Fixpoint all_plain (s : string) : bool :=
  match s with
  | String c s' => plain c && all_plain s'
  | "" => true
  end.

(** [strings.Count(s, c)] for a one-byte separator. *)
Fixpoint Count (s : string) (c : ascii) : nat :=
  match s with
  | String a s' => (if Ascii.eqb a c then 1 else 0) + Count s' c
  | "" => 0
  end%nat.

(** [strings.Cut(s, c)] for a one-byte separator. *)
Fixpoint Cut (s : string) (c : ascii) : string * string * bool :=
  match s with
  | String a s' =>
      if Ascii.eqb a c then ("", s', true)
      else let '(before, after, found) := Cut s' c in
           (String a before, after, found)
  | "" => ("", "", false)
  end.

(** [strings.Split(s, c)] for a one-byte separator. *)
Fixpoint Split (s : string) (c : ascii) : list string :=
  match s with
  | String a s' =>
      if Ascii.eqb a c then "" :: Split s' c
      else match Split s' c with
           | w :: ws => String a w :: ws
           | [] => [String a ""]
           end
  | "" => [""]
  end.

(** [s[:i+1]] and [s[:i]] for [i := strings.LastIndex(s, c)];
    [None] stands for [i = -1]. *)
Fixpoint upto_last (s : string) (c : ascii) : option (string * string) :=
  match s with
  | String a s' =>
      match upto_last s' c with
      | Some (incl, excl) => Some (String a incl, String a excl)
      | None => if Ascii.eqb a c then Some (String a "", "") else None
      end
  | "" => None
  end.

(** [s[i:]] for [i := strings.LastIndex(s, c)]. *)
Fixpoint from_last (s : string) (c : ascii) : option string :=
  match s with
  | String a s' =>
      match from_last s' c with
      | Some r => Some r
      | None => if Ascii.eqb a c then Some s else None
      end
  | "" => None
  end.

Definition HasSuffix (s : string) (c : ascii) : bool :=
  match String.rev s with
  | String a _ => Ascii.eqb a c
  | "" => false
  end.

Definition drop_last (s : string) : string :=
  take (String.length s - 1) s.

Inductive scheme_scan :=
| MissingScheme
| NoScheme
| SchemeAt (scheme rest : string).

Definition keep (c : ascii) (r : scheme_scan) : scheme_scan :=
  match r with
  | SchemeAt scheme rest => SchemeAt (String c scheme) rest
  | other => other
  end.

(** The loop of [getScheme]; [first] tells that the index is 0. *)
Fixpoint scan (first : bool) (s : string) : scheme_scan :=
  match s with
  | String c s' =>
      if is_alpha c then keep c (scan false s')
      else if is_digit c || mem c "+-." then
        if first then NoScheme else keep c (scan false s')
      else if Ascii.eqb c ":" then
        if first then MissingScheme else SchemeAt "" s'
      else NoScheme
  | "" => NoScheme
  end.

Definition getScheme (rawURL : string) : option (string * string) :=
  match scan true rawURL with
  | MissingScheme => None
  | NoScheme => Some ("", rawURL)
  | SchemeAt scheme rest => Some (scheme, rest)
  end.

Fixpoint all_digits (s : string) : bool :=
  match s with
  | String c s' => is_digit c && all_digits s'
  | "" => true
  end.

Definition validOptionalPort (port : string) : bool :=
  match port with
  | "" => true
  | String c digits => Ascii.eqb c ":" && all_digits digits
  end.

Definition parseHost (host : string) : option string :=
  match from_last host ":" with
  | Some colonPort => if validOptionalPort colonPort then Some host else None
  | None => Some host
  end.

(** [parse(rawURL, false)] on a string without [#]. *)
Definition parse (rawURL : string) : option url :=
  if decide (rawURL = "*") then
    Some {| Scheme := ""; Opaque := ""; Host := ""; Path := "*"; RawQuery := "";
            ForceQuery := false; OmitHost := false; Fragment := "" |}
  else
    '(scheme, rest) ← getScheme rawURL;
    let scheme := ToLower scheme in
    let '(rest, rawQuery, forceQuery) :=
      if HasSuffix rest "?" && (Count rest "?" =? 1)%nat
      then (drop_last rest, "", true)
      else let '(before, after, _) := Cut rest "?" in (before, after, false) in
    let mk opaque host path omit :=
      {| Scheme := scheme; Opaque := opaque; Host := host; Path := path;
         RawQuery := rawQuery; ForceQuery := forceQuery; OmitHost := omit;
         Fragment := "" |} in
    if negb (HasPrefix rest "/") && negb (bool_decide (scheme = "")) then
      Some (mk rest "" "" false)
    else if negb (HasPrefix rest "/") && Contains (Cut rest "/").1.1 ":" then
      None
    else if (negb (bool_decide (scheme = "")) || negb (HasPrefix rest "///"))
            && HasPrefix rest "//" then
      let '(authority, after, found) := Cut (drop 2 rest) "/" in
      let rest := if found then String "/" after else "" in
      host ← parseHost authority;
      Some (mk "" host rest false)
    else if negb (bool_decide (scheme = "")) && HasPrefix rest "/" then
      Some (mk "" "" rest true)
    else Some (mk "" "" rest false).

Definition with_fragment (u : url) (frag : string) : url :=
  {| Scheme := Scheme u; Opaque := Opaque u; Host := Host u; Path := Path u;
     RawQuery := RawQuery u; ForceQuery := ForceQuery u; OmitHost := OmitHost u;
     Fragment := frag |}.

Definition Parse (rawURL : string) : option url :=
  if all_plain rawURL && (Count rawURL "#" <=? 1)%nat then
    let '(u, frag, _) := Cut rawURL "#" in
    url ← parse u;
    if decide (frag = "") then Some url else Some (with_fragment url frag)
  else None.

Definition IsAbs (u : url) : bool := negb (bool_decide (Scheme u = "")).

Definition URLString (u : url) : string :=
  let buf := if decide (Scheme u = "") then "" else Scheme u +:+ ":" in
  let buf :=
    if decide (Opaque u = "") then
      let buf :=
        if negb (bool_decide (Scheme u = "")) || negb (bool_decide (Host u = ""))
        then
          if OmitHost u && bool_decide (Host u = "") then buf
          else
            let buf :=
              if negb (bool_decide (Host u = "")) || negb (bool_decide (Path u = ""))
              then buf +:+ "//" else buf in
            buf +:+ Host u
        else buf in
      let path := Path u in
      let buf :=
        if negb (bool_decide (path = "")) && negb (HasPrefix path "/")
           && negb (bool_decide (Host u = ""))
        then buf +:+ "/" else buf in
      let buf :=
        if bool_decide (buf = "") && Contains (Cut path "/").1.1 ":"
        then buf +:+ "./" else buf in
      buf +:+ path
    else buf +:+ Opaque u in
  let buf :=
    if ForceQuery u || negb (bool_decide (RawQuery u = ""))
    then buf +:+ "?" +:+ RawQuery u else buf in
  if decide (Fragment u = "") then buf else buf +:+ "#" +:+ Fragment u.

(** One iteration of the loop of [resolvePath]: [dst] is the builder
    without the leading [/] written before the loop. *)
Definition resolve_elem (st : string * bool) (elem : string) : string * bool :=
  let '(dst, first) := st in
  if decide (elem = ".") then (dst, false)
  else if decide (elem = "..") then
    match upto_last dst "/" with
    | None => ("", true)
    | Some (_, before) => (before, first)
    end
  else ((if first then dst else dst +:+ "/") +:+ elem, false).

Definition resolvePath (base ref : string) : string :=
  let full :=
    if decide (ref = "") then base
    else if negb (HasPrefix ref "/") then
      match upto_last base "/" with
      | Some (dir, _) => dir +:+ ref
      | None => ref
      end
    else ref in
  if decide (full = "") then ""
  else
    let elems := Split full "/" in
    let '(dst, _) := foldl resolve_elem ("", true) elems in
    let elem := List.last elems "" in
    let dst :=
      if bool_decide (elem = ".") || bool_decide (elem = "..")
      then dst +:+ "/" else dst in
    if HasPrefix dst "/" then dst else String "/" dst.

Definition ResolveReference (u ref : url) : url :=
  let scheme := if decide (Scheme ref = "") then Scheme u else Scheme ref in
  if negb (bool_decide (Scheme ref = "")) || negb (bool_decide (Host ref = ""))
  then
    {| Scheme := scheme; Opaque := Opaque ref; Host := Host ref;
       Path := resolvePath (Path ref) ""; RawQuery := RawQuery ref;
       ForceQuery := ForceQuery ref; OmitHost := OmitHost ref;
       Fragment := Fragment ref |}
  else if negb (bool_decide (Opaque ref = "")) then
    {| Scheme := scheme; Opaque := Opaque ref; Host := ""; Path := "";
       RawQuery := RawQuery ref; ForceQuery := ForceQuery ref;
       OmitHost := OmitHost ref; Fragment := Fragment ref |}
  else
    let inherit :=
      bool_decide (Path ref = "") && negb (ForceQuery ref)
      && bool_decide (RawQuery ref = "") in
    let rawQuery := if inherit then RawQuery u else RawQuery ref in
    let fragment :=
      if inherit && bool_decide (Fragment ref = "")
      then Fragment u else Fragment ref in
    if bool_decide (Path ref = "") && negb (bool_decide (Opaque u = "")) then
      {| Scheme := scheme; Opaque := Opaque u; Host := ""; Path := "";
         RawQuery := rawQuery; ForceQuery := ForceQuery ref;
         OmitHost := OmitHost ref; Fragment := fragment |}
    else
      {| Scheme := scheme; Opaque := Opaque ref; Host := Host u;
         Path := resolvePath (Path u) (Path ref); RawQuery := rawQuery;
         ForceQuery := ForceQuery ref; OmitHost := OmitHost ref;
         Fragment := fragment |}.

#[global] Instance lib : NetUrl.Lib := {|
  NetUrl.URL := url;
  NetUrl.Parse := Parse;
  NetUrl.IsAbs := IsAbs;
  NetUrl.ResolveReference := ResolveReference;
  NetUrl.URLString := URLString;
  NetUrl.Host := Host
|}.

End GoUrl.

(** ** Package [parser]: what the renderer hands back *)

Module Parser.

Record ParseResult := { Text : string; Links : list string }.

End Parser.

(** ** Package [crawler] *)

Module Crawler.
Import GoStrings NetUrl.

Record Config := {
  MaxDepth : Z;
  RateLimit : Z;
  MaxWorkers : Z;
  AllowedHost : string
}.

(** [ctx.Err()] once the context is done. *)
Inductive ctx_error := Canceled | DeadlineExceeded.

(** The [error] values built by [Crawl] and [crawlURL]. *)
Inductive error :=
| ErrInvalidSeed
| ErrSeedNotAbsolute
| ErrContext (err : ctx_error)
| ErrCreateRequest (cause : string)
| ErrFetch (cause : string)
| ErrStatus (code : Z)
| ErrNonAllowedHost (url : string)
| ErrNonHTML (contentType : string)
| ErrParseContent (cause : string).

Record Result := {
  URL : string;
  Content : string;
  Links : list string;
  Depth : Z;
  Summary : string;
  Error : option error
}.

Record Crawler := {
  config : Config;
  visited : gset string;
  summarizer : Summarizer.OllamaSummarizer
}.

(** [New]: [time.NewTicker] panics on a non-positive interval, which is
    the [None] case; [cookiejar.New(nil)] does not fail. *)
Definition New (config : Config) (summarizer : Summarizer.OllamaSummarizer)
  : option Crawler :=
  if RateLimit config <=? 0 then None
  else Some {| config := config; visited := ∅; summarizer := summarizer |}.

(** [visited.LoadOrStore(key, true)] on a [sync.Map] used as a set: the
    new set and the [loaded] flag. The operation is atomic. *)
Definition LoadOrStore (visited : gset string) (key : string)
  : gset string * bool :=
  ({[key]} ∪ visited, bool_decide (key ∈ visited)).

(** Which case of [select { case <-ctx.Done(): ; case <-c.limiter.C: }]
    ran. *)
Inductive limiter_select := CtxDone (err : ctx_error) | Tick.

Section WithNetUrl.
Context {L : Lib}.

(** [*http.Response], as far as [crawlURL] reads it: [RequestURL] is
    [resp.Request.URL], the location after redirects. *)
Record Response := {
  StatusCode : Z;
  ContentType : string;
  RequestURL : NetUrl.URL
}.

(** The surroundings of one [crawlURL] call. *)
Record World := {
  limiter : limiter_select;
  (** the error of [http.NewRequestWithContext], if any *)
  NewRequest : string → option string;
  (** [client.Do] *)
  Do : string → Response + string;
  (** [parser.ParseWithPlaywright] *)
  ParseWithPlaywright : string → Parser.ParseResult + string;
  (** the Ollama server behind [c.summarizer] *)
  ollama : Summarizer.server
}.

Definition isAllowedHost (c : Config) (urlStr : string) : bool :=
  if decide (AllowedHost c = "") then true
  else
    match Parse urlStr with
    | None => false
    | Some parsedURL => Contains (Host parsedURL) (AllowedHost c)
    end.

(** The value of [parsedLink] in the body of the loop over the links of
    a page, once a relative link is resolved; [None] when [url.Parse]
    fails and the link is skipped. *)
Definition parsedLink (baseURL : NetUrl.URL) (link : string)
  : option NetUrl.URL :=
  parsedLink ← Parse link;
  Some (if negb (IsAbs parsedLink) then ResolveReference baseURL parsedLink
        else parsedLink).

(** The value of [cleanedLink] in the same loop body. *)
Definition cleanedLink (baseURL : NetUrl.URL) (link : string) : option string :=
  parsedLink ← parsedLink baseURL link;
  Some (TrimRight (URLString parsedLink) "/").

(** The loop [for _, link := range parseResult.Links]. *)
Fixpoint collectLinks (baseURL : NetUrl.URL) (visited : gset string)
    (links : list string) (found : list string) : gset string * list string :=
  match found with
  | [] => (visited, links)
  | link :: found' =>
      match cleanedLink baseURL link with
      | None => collectLinks baseURL visited links found'
      | Some cleaned =>
          let '(visited', loaded) := LoadOrStore visited cleaned in
          collectLinks baseURL visited'
            (if loaded then links else links ++ [cleaned]) found'
      end
  end.

Definition failed (urlStr : string) (depth : Z) (err : error) : Result :=
  {| URL := urlStr; Content := ""; Links := []; Depth := depth;
     Summary := ""; Error := Some err |}.

(** [crawlURL]: the [Result] and the visited set it leaves behind. *)
Definition crawlURL (c : Crawler) (w : World) (visited : gset string)
    (urlStr : string) (depth : Z) : Result * gset string :=
  let result :=
    {| URL := urlStr; Content := ""; Links := []; Depth := depth;
       Summary := ""; Error := None |} in
  if bool_decide (depth >= MaxDepth (config c)) then (result, visited)
  else
    match limiter w with
    | CtxDone err => (failed urlStr depth (ErrContext err), visited)
    | Tick =>
    match NewRequest w urlStr with
    | Some cause => (failed urlStr depth (ErrCreateRequest cause), visited)
    | None =>
    match Do w urlStr with
    | inr cause => (failed urlStr depth (ErrFetch cause), visited)
    | inl resp =>
      if bool_decide (StatusCode resp ≠ 200) then
        (failed urlStr depth (ErrStatus (StatusCode resp)), visited)
      else if negb (isAllowedHost (config c) (URLString (RequestURL resp))) then
        (failed urlStr depth
           (ErrNonAllowedHost (URLString (RequestURL resp))), visited)
      else if negb (Contains (ToLower (ContentType resp)) "text/html") then
        (failed urlStr depth (ErrNonHTML (ContentType resp)), visited)
      else
        match ParseWithPlaywright w urlStr with
        | inr cause => (failed urlStr depth (ErrParseContent cause), visited)
        | inl parseResult =>
            let '(visited', links) :=
              collectLinks (RequestURL resp) visited []
                (Parser.Links parseResult) in
            let summary :=
              if decide (Parser.Text parseResult ≠ "") then
                match Summarizer.Summarize (summarizer c) (ollama w)
                        (Parser.Text parseResult) with
                | (_, inl summary) => summary
                | (_, inr _) => ""
                end
              else "" in
            ({| URL := urlStr; Content := Parser.Text parseResult;
                Links := links; Depth := depth; Summary := summary;
                Error := None |}, visited')
        end
    end end end.

(** *** The goroutines of [Crawl] *)

(** Where a worker goroutine stands. *)
Inductive worker :=
| AtJobs                          (* the outer [select] *)
| InCrawlURL (url : string)       (* inside [c.crawlURL(ctx, url, 0)] *)
| AtResults (result : Result)     (* the inner [select] *)
| Returned.                       (* after [wg.Done()] *)

(** Where the goroutine that called [Crawl] stands once the workers and
    the closer are started. *)
Inductive caller :=
| SendSeed (seedURL : string)     (* [jobs <- seedURL] *)
| CloseJobs                       (* [close(jobs)] *)
| HasStream.                      (* [return results, nil] *)

Record state := State {
  seen : gset string;             (* [c.visited] *)
  cancelled : bool;               (* [ctx.Done()] is closed *)
  main : caller;
  jobs : list string;             (* buffer of [jobs] *)
  jobs_closed : bool;
  results : list Result;          (* buffer of [results] *)
  results_closed : bool;
  workers : list worker
}.

Inductive outcome :=
| Rejected (err : error)          (* [return nil, err] *)
| Panics                          (* [make(chan T, n)] with [n < 0] *)
| Spawned (s : state).            (* the goroutines run *)

(** [Crawl] up to the point where all its goroutines are started; the
    three statements that follow belong to [caller]. *)
Definition Crawl (c : Crawler) (seedURL : string) : outcome :=
  match Parse seedURL with
  | None => Rejected ErrInvalidSeed
  | Some parsedURL =>
      if negb (IsAbs parsedURL) then Rejected ErrSeedNotAbsolute
      else if MaxWorkers (config c) <? 0 then Panics
      else
        Spawned
          {| seen := visited c; cancelled := false; main := SendSeed seedURL;
             jobs := []; jobs_closed := false;
             results := []; results_closed := false;
             workers := replicate (Z.to_nat (MaxWorkers (config c))) AtJobs |}
  end.

(** Capacity of both channels. *)
Definition capacity (c : Crawler) : nat := Z.to_nat (MaxWorkers (config c)).

(** What happens in one step. *)
Inductive label :=
| Cancel
| Push (url : string)                          (* [jobs <- seedURL] *)
| Close                                        (* [close(jobs)], then return *)
| Dispatch (i : nat) (url : string)            (* [url, ok := <-jobs] *)
| Exit (i : nat)                               (* a worker returns *)
| Crawled (i : nat) (url : string) (w : World) (result : Result)
| Publish (i : nat) (result : Result)          (* [results <- result] *)
| Drop (i : nat) (result : Result)             (* [<-ctx.Done()], inner *)
| CloseResults                                 (* [wg.Wait(); close(results)] *)
| Consume (result : Result).                   (* the reader of the stream *)

(** One step of the system. A [select] with several ready cases may take
    any of them. A send needs room in the buffer: with capacity 0 there
    is no worker to hand the value to. A call of [crawlURL] is one step, in
    any [World] whatever, except that the limiter's [select] can only take
    the [ctx.Done()] case once the context is cancelled; a cancellation
    that comes later in the call shows as a failing [Do] or renderer. *)
Inductive step (c : Crawler) : state → label → state → Prop :=
| step_cancel v b m j jc r rc ws :
    step c (State v b m j jc r rc ws) Cancel (State v true m j jc r rc ws)
| step_push v b seedURL j jc r rc ws :
    (length j < capacity c)%nat →
    step c (State v b (SendSeed seedURL) j jc r rc ws) (Push seedURL)
           (State v b CloseJobs (j ++ [seedURL]) jc r rc ws)
| step_close v b j r rc ws :
    step c (State v b CloseJobs j false r rc ws) Close
           (State v b HasStream j true r rc ws)
| step_dispatch v b m url j jc r rc ws i :
    ws !! i = Some AtJobs →
    step c (State v b m (url :: j) jc r rc ws) (Dispatch i url)
           (State v b m j jc r rc (<[i := InCrawlURL url]> ws))
| step_exit_cancelled v m j jc r rc ws i :
    ws !! i = Some AtJobs →
    step c (State v true m j jc r rc ws) (Exit i)
           (State v true m j jc r rc (<[i := Returned]> ws))
| step_exit_closed v b m r rc ws i :
    ws !! i = Some AtJobs →
    step c (State v b m [] true r rc ws) (Exit i)
           (State v b m [] true r rc (<[i := Returned]> ws))
| step_crawl v b m j jc r rc ws i url w result v' :
    ws !! i = Some (InCrawlURL url) →
    (∀ err, limiter w = CtxDone err → b = true) →
    crawlURL c w v url 0 = (result, v') →
    step c (State v b m j jc r rc ws) (Crawled i url w result)
           (State v' b m j jc r rc (<[i := AtResults result]> ws))
| step_publish v b m j jc r ws i result :
    ws !! i = Some (AtResults result) →
    (length r < capacity c)%nat →
    step c (State v b m j jc r false ws) (Publish i result)
           (State v b m j jc (r ++ [result]) false (<[i := AtJobs]> ws))
| step_drop v m j jc r rc ws i result :
    ws !! i = Some (AtResults result) →
    step c (State v true m j jc r rc ws) (Drop i result)
           (State v true m j jc r rc (<[i := Returned]> ws))
| step_close_results v b m j jc r ws :
    Forall (λ w, w = Returned) ws →
    step c (State v b m j jc r false ws) CloseResults
           (State v b m j jc r true ws)
| step_consume v b m j jc result r rc ws :
    step c (State v b m j jc (result :: r) rc ws) (Consume result)
           (State v b m j jc r rc ws).

(** Executions: the labels are listed in the order they happened. *)
Inductive run (c : Crawler) (s0 : state) : list label → state → Prop :=
| run_nil : run c s0 [] s0
| run_snoc tr s l s' :
    run c s0 tr s → step c s l s' → run c s0 (tr ++ [l]) s'.

(** Every URL sent on [jobs], every job taken by a worker, every
    [Result] sent on [results] and every [Result] given up. *)
Definition pushes (tr : list label) : list string :=
  omap (λ l, match l with Push url => Some url | _ => None end) tr.

Definition dispatched (tr : list label) : list string :=
  omap (λ l, match l with Dispatch _ url => Some url | _ => None end) tr.

Definition published (tr : list label) : list Result :=
  omap (λ l, match l with Publish _ r => Some r | _ => None end) tr.

Definition dropped (tr : list label) : list Result :=
  omap (λ l, match l with Drop _ r => Some r | _ => None end) tr.

Definition consumed (tr : list label) : list Result :=
  omap (λ l, match l with Consume r => Some r | _ => None end) tr.

(** The conditions under which [crawlURL] gets as far as rendering the
    page at [urlStr]: [base] is the location after redirects and [page]
    what the renderer returns. *)
Record rendered (c : Crawler) (w : World) (urlStr : string) (depth : Z)
    (base : NetUrl.URL) (page : Parser.ParseResult) : Prop := {
  rendered_depth : depth < MaxDepth (config c);
  rendered_tick : limiter w = Tick;
  rendered_request : NewRequest w urlStr = None;
  rendered_fetch :
    ∃ contentType,
      Do w urlStr = inl {| StatusCode := 200; ContentType := contentType;
                           RequestURL := base |}
      ∧ Contains (ToLower contentType) "text/html" = true;
  rendered_host : isAllowedHost (config c) (URLString base) = true;
  rendered_page : ParseWithPlaywright w urlStr = inl page
}.


(** Every call of [crawlURL] made so far. *)
Definition crawls (tr : list label) : list (string * World * Result) :=
  omap (λ l, match l with
             | Crawled _ url w result => Some (url, w, result)
             | _ => None
             end) tr.

(** A worker that holds no job. *)
Definition resting (w : worker) : Prop := w = AtJobs ∨ w = Returned.

Definition idle (ws : list worker) : Prop := Forall resting ws.

(** Worker [i] is at [w] and all the others hold no job. *)
Definition busy (i : nat) (w : worker) (ws : list worker) : Prop :=
  ws !! i = Some w ∧ ∀ j w', j ≠ i → ws !! j = Some w' → resting w'.

(** The life of the only job of a crawl, the seed. *)
Inductive phase (c : Crawler) (seedURL : string) (tr : list label) (s : state)
  : Prop :=
| Waiting :
    dispatched tr = [] → crawls tr = [] → published tr = [] → dropped tr = [] →
    idle (workers s) → seen s = visited c →
    phase c seedURL tr s
| Fetching i :
    dispatched tr = [seedURL] → crawls tr = [] →
    published tr = [] → dropped tr = [] →
    busy i (InCrawlURL seedURL) (workers s) → seen s = visited c →
    phase c seedURL tr s
| Sending i w result :
    dispatched tr = [seedURL] → crawls tr = [(seedURL, w, result)] →
    published tr = [] → dropped tr = [] →
    busy i (AtResults result) (workers s) →
    crawlURL c w (visited c) seedURL 0 = (result, seen s) →
    phase c seedURL tr s
| Settled w result :
    dispatched tr = [seedURL] → crawls tr = [(seedURL, w, result)] →
    crawlURL c w (visited c) seedURL 0 = (result, seen s) →
    idle (workers s) →
    (published tr = [result] ∧ dropped tr = []
     ∨ published tr = [] ∧ dropped tr = [result] ∧ cancelled s = true) →
    phase c seedURL tr s.

(** What holds of every state reached from [Crawl c seedURL]. *)
Record invariant (c : Crawler) (seedURL : string) (tr : list label) (s : state)
  : Prop := {
  inv_main :
    match main s with
    | SendSeed url => url = seedURL ∧ pushes tr = [] ∧ jobs_closed s = false
    | CloseJobs => pushes tr = [seedURL] ∧ jobs_closed s = false
    | HasStream => pushes tr = [seedURL] ∧ jobs_closed s = true
    end;
  inv_jobs : dispatched tr ++ jobs s = pushes tr;
  inv_results : published tr = consumed tr ++ results s;
  inv_workers : length (workers s) = capacity c;
  inv_closed : results_closed s = true → Forall (λ w, w = Returned) (workers s);
  inv_phase : phase c seedURL tr s
}.

End WithNetUrl.

End Crawler.

(** ** Inputs used in the examples *)

Module Examples.
Import GoStrings.

Definition mistral : Summarizer.OllamaSummarizer :=
  Summarizer.NewOllamaSummarizer "http://localhost:11434" "mistral".

(** A server that answers every request with the same summary. *)
Definition steady (answer : string) : Summarizer.server :=
  λ _ _, Summarizer.Decoded {| Summarizer.Response := answer; Summarizer.Error := "" |}.

(** A server that is unreachable. *)
Definition down : Summarizer.server :=
  λ _ _, Summarizer.PostFails "connection refused".

(** A server that fails before its [k]-th answer. *)
Definition flaky (k : nat) (answer : string) : Summarizer.server :=
  λ attempt req, if (attempt <? k)%nat then down attempt req
                 else steady answer attempt req.

(** A text of [n] bytes. *)
Fixpoint filler (n : nat) : string :=
  match n with
  | O => ""
  | S n' => String "x" (filler n')
  end.

Definition page (host path query : string) : GoUrl.url :=
  {| GoUrl.Scheme := "https"; GoUrl.Opaque := ""; GoUrl.Host := host;
     GoUrl.Path := path; GoUrl.RawQuery := query; GoUrl.ForceQuery := false;
     GoUrl.OmitHost := false; GoUrl.Fragment := "" |}.

Definition seed : string := "https://example.com/a".

Definition config (maxDepth maxWorkers : Z) (allowedHost : string)
  : Crawler.Config :=
  {| Crawler.MaxDepth := maxDepth; Crawler.RateLimit := 1000000000;
     Crawler.MaxWorkers := maxWorkers; Crawler.AllowedHost := allowedHost |}.

(** A crawler as [New] returns it. *)
Definition crawler (cfg : Crawler.Config) : Crawler.Crawler :=
  {| Crawler.config := cfg; Crawler.visited := ∅;
     Crawler.summarizer := mistral |}.

(** A site that answers every request with one HTML page, served from
    [final] after redirects, whose rendering gives [text] and [links]. *)
Definition site (final : GoUrl.url) (text : string) (links : list string)
    (srv : Summarizer.server) : @Crawler.World GoUrl.lib :=
  {| Crawler.limiter := Crawler.Tick;
     Crawler.NewRequest := λ _, None;
     Crawler.Do := λ _,
       inl (@Crawler.Build_Response GoUrl.lib 200
              "text/html; charset=utf-8" final);
     Crawler.ParseWithPlaywright := λ _,
       inl {| Parser.Text := text; Parser.Links := links |};
     Crawler.ollama := srv |}.

(** The page at [seed] with two links to the same place. *)
Definition blog : Crawler.World :=
  site (page "example.com" "/a" "") "Hello world"
    ["https://example.com/b"; "https://example.com/b/"] (steady "A greeting.").

(** The page at [seed] with a link back to itself. *)
Definition loop : Crawler.World :=
  site (page "example.com" "/a" "") "Hello world"
    ["https://example.com/a/"; "https://example.com/b"] (steady "A greeting.").

(** The request for [seed] is redirected to another host. *)
Definition elsewhere : Crawler.World :=
  site (page "other.com" "/landing" "") "Hello world"
    ["https://other.com/b"] (steady "A greeting.").

(** The same site for a job whose wait for the limiter is cut short by
    cancellation. *)
Definition interrupted : @Crawler.World GoUrl.lib :=
  {| Crawler.limiter := Crawler.CtxDone Crawler.Canceled;
     Crawler.NewRequest := Crawler.NewRequest blog;
     Crawler.Do := Crawler.Do blog;
     Crawler.ParseWithPlaywright := Crawler.ParseWithPlaywright blog;
     Crawler.ollama := Crawler.ollama blog |}.

(** The state in which [Crawl] leaves a fresh crawler with [n] workers. *)
Definition spawned (n : nat) : Crawler.state :=
  Crawler.State ∅ false (Crawler.SendSeed seed) [] false [] false
    (replicate n Crawler.AtJobs).

Definition blog_result : Crawler.Result :=
  {| Crawler.URL := seed; Crawler.Content := "Hello world";
     Crawler.Links := ["https://example.com/b"]; Crawler.Depth := 0;
     Crawler.Summary := "A greeting."; Crawler.Error := None |}.

(** A crawl of [blog] by one worker, to its end. *)
Definition blog_trace : list (@Crawler.label GoUrl.lib) :=
  [Crawler.Push seed; Crawler.Close; Crawler.Dispatch 0 seed;
   Crawler.Crawled 0 seed blog blog_result; Crawler.Publish 0 blog_result;
   Crawler.Exit 0; Crawler.CloseResults].

Definition blog_end : Crawler.state :=
  Crawler.State {["https://example.com/b"]} false Crawler.HasStream [] true
    [blog_result] true [Crawler.Returned].

Definition interrupted_result : Crawler.Result :=
  Crawler.failed seed 0 (Crawler.ErrContext Crawler.Canceled).

(** A crawl by one worker that is cancelled while the worker waits for the
    rate limiter. *)
Definition interrupted_trace : list (@Crawler.label GoUrl.lib) :=
  [Crawler.Push seed; Crawler.Close; Crawler.Dispatch 0 seed; Crawler.Cancel;
   Crawler.Crawled 0 seed interrupted interrupted_result;
   Crawler.Drop 0 interrupted_result; Crawler.CloseResults].

Definition interrupted_end : Crawler.state :=
  Crawler.State ∅ true Crawler.HasStream [] true [] true [Crawler.Returned].

Definition loop_result : Crawler.Result :=
  {| Crawler.URL := seed; Crawler.Content := "Hello world";
     Crawler.Links := ["https://example.com/a"; "https://example.com/b"];
     Crawler.Depth := 0; Crawler.Summary := "A greeting.";
     Crawler.Error := None |}.

(** A text that is as long as the ceiling of the summarizer allows. *)
Definition ceiling_text : string := filler (Z.to_nat 12000).

(** A text one byte above the ceiling of the summarizer. *)
Definition long_text : string := filler (Z.to_nat 12001).

End Examples.

(** ** Package [summarizer]: the factory *)

Module Factory.
Import Summarizer.

(** The constant [TypeOllama] of the string type [Type]. *)
Definition TypeOllama : string := "ollama".

Record Config := {
  Type' : string;
  OllamaURL : string;
  OllamaModel : string
}.

Record Factory := { config : Config }.

Definition NewFactory (config : Config) : Factory := {| config := config |}.

(** The [error] of [CreateSummarizer]; the payload is the type the message
    is formatted from. *)
Inductive error := ErrUnsupported (type : string).

(** [CreateSummarizer]: the [Summarizer] interface has one implementation,
    [OllamaSummarizer]. *)
Definition CreateSummarizer (f : Factory) : OllamaSummarizer + error :=
  if decide (Type' (config f) = TypeOllama) then
    inl (NewOllamaSummarizer (OllamaURL (config f)) (OllamaModel (config f)))
  else inr (ErrUnsupported (Type' (config f))).

End Factory.

(** ** What a [Summarize] call costs *)

Module SummarizerCost.
Import GoStrings Summarizer.

(** The requests sent, with their attempt numbers. *)
Definition posts (tr : list event) : list (nat * ollamaRequest) :=
  omap (λ e, match e with EvPost k q => Some (k, q) | EvSleep _ => None end) tr.

(** The time spent in [time.Sleep], in nanoseconds. *)
Definition slept (tr : list event) : Z :=
  foldr (λ e acc, match e with EvSleep d => d + acc | EvPost _ _ => acc end) 0 tr.

(** A string of white-space runes only. *)
Fixpoint blank (s : string) : bool :=
  match s with
  | String a s1 =>
      if isSpace (String a "") then blank s1
      else
        match s1 with
        | String b s2 =>
            if isSpace (String a (String b "")) then blank s2
            else
              match s2 with
              | String c s3 =>
                  isSpace (String a (String b (String c ""))) && blank s3
              | "" => false
              end
        | "" => false
        end
  | "" => true
  end.

End SummarizerCost.

(** ** Package [parser]: the renderer

    The package keeps the Playwright driver and the browser in package
    variables and starts them on first use. The driver, the browser and the
    page are external; each call is given their answers. *)

Module Renderer.
Import GoStrings.

(** A value of [JSONValue()]: Go's [interface{}] filled from JSON. [JOther]
    stands for numbers, booleans and objects. *)
Inductive json :=
| JNull
| JString (s : string)
| JArray (items : list json)
| JOther.

(** The two values [initErr] can take. *)
Inductive init_error :=
| ErrStart (cause : string)
| ErrLaunch (cause : string).

(** The package variables [pw], [browser], [once] and [initErr]; a handle
    is a number and [None] is [nil]. *)
Record runtime := {
  pw : option nat;
  browser : option nat;
  once : bool;
  initErr : option init_error
}.

(** The variables when the program starts. *)
Definition fresh : runtime :=
  {| pw := None; browser := None; once := false; initErr := None |}.

(** What [playwright.Run] and [Chromium.Launch] would answer. *)
Record driver := {
  Run : nat + string;
  Launch : nat + string
}.

(** Calls that release a resource. *)
Inductive effect :=
| Stop (driver : nat)
| CloseBrowser (browser : nat).

(** [initPlaywright]. The function literal given to [once.Do] declares
    its own [pw] and [err] with [:=], so the package variable [pw] is not
    assigned; [browser] is. *)
Definition initPlaywright (d : driver) (rt : runtime)
  : runtime * list effect * option init_error :=
  if once rt then (rt, [], initErr rt)
  else
    match Run d with
    | inr cause =>
        ({| pw := pw rt; browser := browser rt; once := true;
            initErr := Some (ErrStart cause) |}, [],
         Some (ErrStart cause))
    | inl pw_local =>
        match Launch d with
        | inr cause =>
            ({| pw := pw rt; browser := None; once := true;
                initErr := Some (ErrLaunch cause) |}, [Stop pw_local],
             Some (ErrLaunch cause))
        | inl b =>
            ({| pw := pw rt; browser := Some b; once := true;
                initErr := initErr rt |}, [], initErr rt)
        end
    end.

(** [Cleanup]. *)
Definition Cleanup (rt : runtime) : list effect :=
  match browser rt with Some b => [CloseBrowser b] | None => [] end
  ++ match pw rt with Some p => [Stop p] | None => [] end.

(** The answers of the browser to one [ParseWithPlaywright] call, in the
    order they are asked for; for the calls that return an error or
    nothing, [Some cause] is the error. *)
Record session := {
  NewContext : option string;
  NewPage : option string;
  Goto : string → option string;
  EvaluateContent : option string;
  ContentValue : json + string;
  EvaluateLinks : option string;
  LinksValue : json + string
}.

Inductive error :=
| ErrInitialize (err : init_error)
| ErrCreateContext (cause : string)
| ErrCreatePage (cause : string)
| ErrNavigate (cause : string)
| ErrExtractContent (cause : string)
| ErrContentValue (cause : string)
| ErrExtractLinks (cause : string)
| ErrLinksValue (cause : string).

Inductive outcome :=
| Parsed (result : Parser.ParseResult)   (* [return ParseResult{...}, nil] *)
| Failed (err : error)                   (* [return ParseResult{}, err] *)
| PanicNoBrowser                         (* [browser] is [nil] *)
| PanicNotString.                        (* [content.(string)] fails *)

(** The loop that fills [linksList]. *)
Definition linksList (links : json) : list string :=
  match links with
  | JArray linksArr =>
      omap (λ link, match link with JString linkStr => Some linkStr
                                  | _ => None end) linksArr
  | _ => []
  end.

(** [ParseWithPlaywright]. *)
Definition ParseWithPlaywright (d : driver) (b : session) (rt : runtime)
    (url : string) : runtime * list effect * outcome :=
  let '(rt', effects, err) := initPlaywright d rt in
  (rt', effects,
   match err with
   | Some err => Failed (ErrInitialize err)
   | None =>
   match browser rt' with
   | None => PanicNoBrowser
   | Some _ =>
   match NewContext b with
   | Some cause => Failed (ErrCreateContext cause)
   | None =>
   match NewPage b with
   | Some cause => Failed (ErrCreatePage cause)
   | None =>
   match Goto b url with
   | Some cause => Failed (ErrNavigate cause)
   | None =>
   match EvaluateContent b with
   | Some cause => Failed (ErrExtractContent cause)
   | None =>
   match ContentValue b with
   | inr cause => Failed (ErrContentValue cause)
   | inl content =>
   match EvaluateLinks b with
   | Some cause => Failed (ErrExtractLinks cause)
   | None =>
   match LinksValue b with
   | inr cause => Failed (ErrLinksValue cause)
   | inl links =>
       match content with
       | JNull =>
           Parsed {| Parser.Text := ""; Parser.Links := linksList links |}
       | JString s =>
           Parsed {| Parser.Text := TrimSpace s;
                     Parser.Links := linksList links |}
       | _ => PanicNotString
       end
   end end end end end end end end end).

(** A sequence of [initPlaywright] calls. *)
Definition initAll (ds : list driver) (rt : runtime) : runtime :=
  foldl (λ rt d, (initPlaywright d rt).1.1) rt ds.

(** *** The script that collects the links of a page

    [hrefs] is [Array.from(links).map(link => link.href)]. *)

(** [self.indexOf(href)]. *)
Fixpoint indexOf (self : list string) (href : string) : Z :=
  match self with
  | [] => -1
  | x :: self' =>
      if decide (x = href) then 0
      else let i := indexOf self' href in if i <? 0 then -1 else i + 1
  end.

(** [self.filter((href, index, self) => p(href, index))], from [index]
    on. *)
Fixpoint filterFrom (p : string → Z → bool) (index : Z) (rest : list string)
  : list string :=
  match rest with
  | [] => []
  | href :: rest' =>
      (if p href index then [href] else []) ++ filterFrom p (index + 1) rest'
  end.

(** The value [extractedLinks] of the script, when nothing throws. *)
Definition extractedLinks (hrefs : list string) : list string :=
  let web :=
    List.filter
      (λ href, negb (String.eqb href "")
               && (HasPrefix href "http://" || HasPrefix href "https://"))
      hrefs in
  let plain := List.filter (λ href, negb (Contains href "javascript:")) web in
  filterFrom (λ href index, indexOf plain href =? index) 0 plain.

End Renderer.

(** ** The prompt for authentication, package [crawler] *)

Module Authentication.
Import GoStrings.

(** [waitForAuthentication], as a function of the line read from standard
    input (the argument [authURL] is not used). *)
Definition waitForAuthentication (input : string) : bool :=
  negb (Contains (ToLower input) "cancel").

End Authentication.

(** ** The command [crawler] *)

Module Main.

(** The fields of the loaded configuration that [main] reads; [RateLimit]
    is the value of [time.Duration(cfg.RateLimit)]. *)
Record AppConfig := { MaxDepth : Z; RateLimit : Z; MaxWorkers : Z }.

(** The value [crawlerConfig]; [None] when the division panics. Go's
    integer division truncates towards zero. *)
Definition crawlerConfig (cfg : AppConfig) : option Crawler.Config :=
  if decide (RateLimit cfg = 0) then None
  else
    Some {| Crawler.MaxDepth := MaxDepth cfg;
            Crawler.RateLimit := Summarizer.Second ÷ RateLimit cfg;
            Crawler.MaxWorkers := MaxWorkers cfg;
            Crawler.AllowedHost := "" |}.

Definition ollamaSummarizer : Summarizer.OllamaSummarizer :=
  Summarizer.NewOllamaSummarizer "http://localhost:11434" "mistral".

(** The crawler [main] runs, if it gets that far. *)
Definition crawler (cfg : AppConfig) : option Crawler.Crawler :=
  crawlerConfig cfg ≫= λ crawlerConfig, Crawler.New crawlerConfig ollamaSummarizer.

End Main.

(** ** The work a crawl has left *)

Module CrawlMeasure.
Import Crawler.

(** What a worker has left to do before it is back at the outer [select]
    or gone. *)
Definition weight (w : worker) : nat :=
  match w with
  | AtJobs => 1
  | InCrawlURL _ => 4
  | AtResults _ => 3
  | Returned => 0
  end.

(** A bound on the steps the goroutines of [Crawl] can still take: a job
    in the queue, or still to be sent, costs a dispatch, a call of
    [crawlURL] and a send of the [Result]. *)
Definition potential (s : state) : nat :=
  match main s with SendSeed _ => 6 | CloseJobs => 1 | HasStream => 0 end
  + 4 * length (jobs s)
  + sum_list (weight <$> workers s)
  + (if results_closed s then 0 else 1).

Section WithNetUrl.
Context {L : NetUrl.Lib}.

(** The steps of the goroutines of [Crawl], as opposed to those of the
    owner of the context and of the reader of the stream. *)
Definition internal (l : label) : bool :=
  match l with
  | Cancel | Consume _ => false
  | _ => true
  end.

End WithNetUrl.

End CrawlMeasure.

(** * Properties of the summarizer *)

Module SummarizerFacts.
Import GoStrings Summarizer.

Lemma length_take n s : String.length (take n s) = (n `min` String.length s)%nat.
Proof.
  revert s; induction n as [|n IH]; intros [|a s]; simpl; auto.
Qed.

Lemma length_drop n s : String.length (drop n s) = (String.length s - n)%nat.
Proof.
  revert s; induction n as [|n IH]; intros [|a s]; simpl; auto.
Qed.

Lemma take_drop n s : take n s +:+ drop n s = s.
Proof.
  revert s; induction n as [|n IH]; intros [|a s]; try reflexivity.
  cbn [take drop].
  change (String a (take n s) +:+ drop n s)
    with (String a (take n s +:+ drop n s)).
  by rewrite IH.
Qed.

(** Every POST of the retry loop carries the same body, and the loop
    starts with a POST whenever it has an iteration to run. *)
Lemma attempts_posts srv req fuel k tr r :
  attempts srv req fuel k = (tr, r) →
  ∀ k' q, EvPost k' q ∈ tr → q = req.
Proof.
  revert k tr r; induction fuel as [|fuel IH]; intros k tr r; simpl.
  - intros [= <- <-] k' q Hin. by apply elem_of_nil in Hin.
  - destruct (makeRequest srv k req) as [resp|err].
    + intros [= <- <-] k' q Hin. apply list_elem_of_singleton in Hin.
      by injection Hin.
    + destruct (decide (k = maxAttempts)).
      * intros [= <- <-] k' q Hin. apply list_elem_of_singleton in Hin.
        by injection Hin.
      * destruct (attempts srv req fuel (S k)) as [tr' r'] eqn:E.
        intros [= <- <-] k' q Hin.
        apply elem_of_cons in Hin as [Hin|Hin]; [by injection Hin|].
        apply elem_of_cons in Hin as [Hin|Hin]; [discriminate|].
        eapply IH; eauto.
Qed.

Lemma attempts_head srv req fuel k :
  ∃ tr r, attempts srv req (S fuel) k = (EvPost k req :: tr, r).
Proof.
  simpl. destruct (makeRequest srv k req) as [resp|err]; [by eauto|].
  destruct (decide (k = maxAttempts)); [by eauto|].
  destruct (attempts srv req fuel (S k)) as [tr' r']. by eauto.
Qed.

Lemma Summarize_unfold o srv text :
  TrimSpace text ≠ "" →
  Summarize o srv text =
    let '(tr, r) :=
      attempts srv (reqBody o (firstAndLast (TrimSpace text))) maxAttempts 1 in
    (tr, match r with
         | inr err => inr err
         | inl summary =>
             if decide (summary = "") then inr ErrEmptyResponse else inl summary
         end).
Proof.
  intros Ht. unfold Summarize.
  destruct (decide (TrimSpace text = "")) as [|_]; [done|].
  destruct (attempts _ _ _ _) as [tr [summary|err]]; [|done].
  by destruct (decide (summary = "")).
Qed.

Lemma length_app s1 s2 :
  String.length (s1 +:+ s2) = (String.length s1 + String.length s2)%nat.
Proof.
  induction s1 as [|a s1 IH]; [done|].
  change (String a s1 +:+ s2) with (String a (s1 +:+ s2)). simpl. by rewrite IH.
Qed.

Lemma len_take n s : 0 <= n <= len s → len (take (Z.to_nat n) s) = n.
Proof. unfold len. rewrite length_take. lia. Qed.

Lemma len_drop n s : 0 <= n <= len s → len (drop (Z.to_nat n) s) = len s - n.
Proof. unfold len. rewrite length_drop. lia. Qed.

(** What the shortening step yields on a text above the ceiling. *)
Lemma firstAndLast_long t :
  maxLen < len t →
  ∃ firstPart lastPart,
    firstAndLast t = firstPart +:+ separator +:+ lastPart
    ∧ len firstPart = maxLen / 2 ∧ len lastPart = maxLen / 2
    ∧ (∃ rest, t = firstPart +:+ rest) ∧ (∃ rest, t = rest +:+ lastPart).
Proof.
  intros Hlong. unfold firstAndLast.
  destruct (Z.ltb_spec maxLen (len t)) as [_|]; [|lia].
  change (maxLen / 2) with 6000 in *. unfold maxLen in Hlong.
  exists (take (Z.to_nat 6000) t), (drop (Z.to_nat (len t - 6000)) t).
  split; [done|]. split; [apply len_take; lia|].
  split; [rewrite len_drop; lia|]. split.
  - exists (drop (Z.to_nat 6000) t). by rewrite take_drop.
  - exists (take (Z.to_nat (len t - 6000)) t). by rewrite take_drop.
Qed.

Lemma firstAndLast_short t : len t <= maxLen → firstAndLast t = t.
Proof.
  intros Hshort. unfold firstAndLast.
  destruct (Z.ltb_spec maxLen (len t)); [lia|done].
Qed.

Example firstAndLast_12001 :
  len (firstAndLast (Examples.long_text)) = 12005.
Proof. vm_compute. reflexivity. Qed.

Example Summarize_flaky :
  Summarize Examples.mistral (Examples.flaky 3 "short") " some page " =
    (rounds (reqBody Examples.mistral "some page") 3, inl "short").
Proof. vm_compute. reflexivity. Qed.

(** C6, as amended. [Summarize] first trims white space from both ends of
    its input. When the trimmed text [t] is not empty, every request sent
    downstream carries the prompt of one text [sent], and at least one
    request is sent. If [t] is longer than the fixed ceiling [maxLen]
    (12000 bytes), [sent] is the first [maxLen / 2] bytes of [t], the
    separator and the last [maxLen / 2] bytes of [t]; otherwise [sent] is
    [t] itself. *)
Theorem Summarize_sends_first_and_last o srv text :
  TrimSpace text ≠ "" →
  ∃ sent tr r,
    Summarize o srv text = (EvPost 1 (reqBody o sent) :: tr, r)
    ∧ (∀ k q, EvPost k q ∈ tr → q = reqBody o sent)
    ∧ (maxLen < len (TrimSpace text) →
       ∃ firstPart lastPart,
         sent = firstPart +:+ separator +:+ lastPart
         ∧ len firstPart = maxLen / 2 ∧ len lastPart = maxLen / 2
         ∧ (∃ rest, TrimSpace text = firstPart +:+ rest)
         ∧ (∃ rest, TrimSpace text = rest +:+ lastPart))
    ∧ (len (TrimSpace text) <= maxLen → sent = TrimSpace text).
Proof.
  intros Ht. set (t := TrimSpace text) in *.
  exists (firstAndLast t).
  rewrite (Summarize_unfold _ _ _ Ht). fold t.
  destruct (attempts_head srv (reqBody o (firstAndLast t)) 2 1)
    as (tr & r & Hrun).
  change (attempts srv (reqBody o (firstAndLast t)) maxAttempts 1)
    with (attempts srv (reqBody o (firstAndLast t)) 3 1).
  rewrite Hrun. eexists _, _. split; [reflexivity|].
  split; [|split].
  - intros k q Hin.
    eapply (attempts_posts _ _ _ _ _ _ Hrun). by right.
  - apply firstAndLast_long.
  - apply firstAndLast_short.
Qed.

Lemma Summarize_sends_first_and_last_witness :
  ∃ sent tr r,
    Summarize Examples.mistral Examples.down (Examples.long_text)
      = (EvPost 1 (reqBody Examples.mistral sent) :: tr, r)
    ∧ len sent = 12005.
Proof.
  destruct (Summarize_sends_first_and_last Examples.mistral Examples.down
              (Examples.long_text)) as (sent & tr & r & Hrun & _ & Hlong & _).
  { vm_compute. discriminate. }
  exists sent, tr, r. split; [exact Hrun|].
  destruct Hlong as (firstPart & lastPart & -> & H1 & H2 & _).
  { vm_compute. reflexivity. }
  unfold len in *. rewrite !length_app. simpl.
  change (maxLen / 2) with 6000 in *. lia.
Defined.

(** C6 as stated fails twice. An input of two bytes, far below the
    ceiling, is not passed on unmodified, since its leading blank is
    removed. An input of 12001 bytes, above the ceiling, is not cut into a
    first and a last part: once its leading blank is removed it has 12000
    bytes and is passed on whole. *)
Lemma Summarize_modifies_short_input :
  (len " a" <= maxLen
   ∧ Summarize Examples.mistral (Examples.steady "ok") " a"
     = ([EvPost 1 (reqBody Examples.mistral "a")], inl "ok")
   ∧ Prompt (reqBody Examples.mistral "a") ≠ Prompt (reqBody Examples.mistral " a"))
  ∧ (maxLen < len (String " " Examples.ceiling_text)
     ∧ len Examples.ceiling_text = maxLen
     ∧ Summarize Examples.mistral (Examples.steady "ok")
         (String " " Examples.ceiling_text)
       = ([EvPost 1 (reqBody Examples.mistral Examples.ceiling_text)], inl "ok")).
Proof.
  split.
  - vm_compute. split; [discriminate|]. split; [reflexivity|discriminate].
  - vm_compute. split; [reflexivity|]. split; reflexivity.
Qed.

(** C7, as amended. A call on blank input fails at once with "empty text"
    and sends nothing. Any other call sends [k] requests for some
    [1 <= k <= 3], all but the last of which fail, and sleeps [i] seconds
    after the failed [i]-th request. If the [k]-th request succeeds no
    further request is made: its response is returned when it is not
    empty, and an "empty response" error otherwise. If it fails then
    [k = 3] and the error of the third attempt is returned. *)
Theorem Summarize_retries o srv text :
  let req := reqBody o (firstAndLast (TrimSpace text)) in
  (TrimSpace text = "" ∧ Summarize o srv text = ([], inr ErrEmptyText))
  ∨ (TrimSpace text ≠ "" ∧
     ∃ k, (1 ≤ k ≤ maxAttempts)%nat
       ∧ (∀ j, (1 ≤ j < k)%nat → ∃ err, makeRequest srv j req = inr err)
       ∧ match makeRequest srv k req with
         | inl resp =>
             Summarize o srv text =
               (rounds req k,
                if decide (Response resp = "") then inr ErrEmptyResponse
                else inl (Response resp))
         | inr err =>
             k = maxAttempts
             ∧ Summarize o srv text =
                 (rounds req k, inr (ErrAfterAttempts maxAttempts err))
         end).
Proof.
  intros req. destruct (decide (TrimSpace text = "")) as [Ht|Ht].
  { left. split; [done|]. unfold Summarize. by rewrite decide_True. }
  right. split; [done|]. rewrite (Summarize_unfold _ _ _ Ht). fold req.
  unfold maxAttempts. cbn [attempts].
  destruct (makeRequest srv 1 req) as [r1|e1] eqn:H1.
  { exists 1%nat. rewrite H1. split; [lia|]. split; [intros; lia|done]. }
  destruct (makeRequest srv 2 req) as [r2|e2] eqn:H2.
  { exists 2%nat. rewrite H2. split; [lia|]. split; [|done].
    intros j Hj. assert (j = 1%nat) as -> by lia. eauto. }
  exists 3%nat. split; [lia|]. split.
  { intros j Hj. assert (j = 1 ∨ j = 2)%nat as [-> | ->] by lia; eauto. }
  destruct (makeRequest srv 3 req) as [r3|e3] eqn:H3; cbn; [done|].
  unfold maxAttempts. done.
Qed.

(** C7 as stated fails: the first request succeeds with an empty response,
    and [Summarize] returns an error after this single attempt instead of
    the response. *)
Lemma Summarize_empty_response :
  makeRequest (Examples.steady "") 1 (reqBody Examples.mistral "page text")
    = inl {| Response := ""; Error := "" |}
  ∧ Summarize Examples.mistral (Examples.steady "") "page text"
    = ([EvPost 1 (reqBody Examples.mistral "page text")], inr ErrEmptyResponse).
Proof. vm_compute. split; reflexivity. Qed.

End SummarizerFacts.

(** * Properties of [crawlURL] *)

Module CrawlURLFacts.
Import GoStrings NetUrl Crawler.

Lemma TrimRightFunc_idemp f s :
  TrimRightFunc f (TrimRightFunc f s) = TrimRightFunc f s.
Proof.
  induction s as [|a s IH]; [done|]. cbn [TrimRightFunc].
  destruct (TrimRightFunc f s) as [|b r] eqn:E.
  - destruct (f a) eqn:Ha; [done|]. cbn. by rewrite Ha.
  - cbn [TrimRightFunc]. cbn [TrimRightFunc] in IH. by rewrite IH.
Qed.

Lemma TrimRightFunc_snoc f s c :
  f c = true → TrimRightFunc f (s +:+ String c "") = TrimRightFunc f s.
Proof.
  intros Hc. induction s as [|a s IH].
  - change ("" +:+ String c "") with (String c ""). cbn. by rewrite Hc.
  - change (String a s +:+ String c "") with (String a (s +:+ String c "")).
    cbn [TrimRightFunc]. by rewrite IH.
Qed.

Section WithNetUrl.
Context {L : Lib}.

Lemma crawlURL_rendered c w v urlStr depth base page :
  rendered c w urlStr depth base page →
  crawlURL c w v urlStr depth =
    ({| URL := urlStr; Content := Parser.Text page;
        Links := (collectLinks base v [] (Parser.Links page)).2;
        Depth := depth;
        Summary :=
          if decide (Parser.Text page ≠ "") then
            match Summarizer.Summarize (summarizer c) (ollama w)
                    (Parser.Text page) with
            | (_, inl summary) => summary
            | (_, inr _) => ""
            end
          else "";
        Error := None |},
     (collectLinks base v [] (Parser.Links page)).1).
Proof.
  intros [Hdepth Htick Hreq (ct & Hdo & Hct) Hhost Hpage].
  unfold crawlURL. rewrite bool_decide_eq_false_2 by lia.
  rewrite Htick, Hreq, Hdo. cbn [StatusCode ContentType RequestURL].
  rewrite bool_decide_eq_false_2 by (intros Hne; by apply Hne).
  rewrite Hhost, Hct, Hpage. cbn [negb].
  by destruct (collectLinks base v [] (Parser.Links page)).
Qed.

Lemma crawlURL_URL_Depth c w v urlStr depth :
  URL (crawlURL c w v urlStr depth).1 = urlStr
  ∧ Depth (crawlURL c w v urlStr depth).1 = depth.
Proof.
  unfold crawlURL. repeat case_match; done.
Qed.

(** C2, as amended. [crawlURL] returns at once for a job whose depth has
    reached [MaxDepth]: nothing is fetched, rendered or summarised, the
    [Result] carries the URL and the depth only, and the visited set is
    left as it was. *)
Theorem crawlURL_at_max_depth c w v urlStr depth :
  depth >= MaxDepth (config c) →
  crawlURL c w v urlStr depth =
    ({| URL := urlStr; Content := ""; Links := []; Depth := depth;
        Summary := ""; Error := None |}, v).
Proof.
  intros Hdepth. unfold crawlURL. by rewrite bool_decide_eq_true_2.
Qed.

(** C4, as amended. With a host filter configured, a job that is fetched
    with status 200 (a tick of the limiter, a request that is built, a
    response with status 200) and whose final location, parsed back from
    its string form as [isAllowedHost] does, has a host without the
    configured substring gets a "non-allowed host" error and no content,
    links or summary; nothing is recorded as visited. Without a filter,
    [isAllowedHost] accepts every location. *)
Theorem isAllowedHost_filter c w v urlStr depth contentType base :
  (AllowedHost (config c) ≠ "" →
   depth < MaxDepth (config c) →
   limiter w = Tick →
   NewRequest w urlStr = None →
   Do w urlStr = inl {| StatusCode := 200; ContentType := contentType;
                        RequestURL := base |} →
   (∀ parsedURL, Parse (URLString base) = Some parsedURL →
      Contains (Host parsedURL) (AllowedHost (config c)) = false) →
   crawlURL c w v urlStr depth =
     ({| URL := urlStr; Content := ""; Links := []; Depth := depth;
         Summary := "";
         Error := Some (ErrNonAllowedHost (URLString base)) |}, v))
  ∧ (AllowedHost (config c) = "" →
     ∀ location, isAllowedHost (config c) location = true).
Proof.
  split.
  - intros Hfilter Hdepth Htick Hreq Hdo Hhost.
    unfold crawlURL. rewrite bool_decide_eq_false_2 by lia.
    rewrite Htick, Hreq, Hdo. cbn [StatusCode ContentType RequestURL].
    rewrite bool_decide_eq_false_2 by (intros Hne; by apply Hne).
    assert (isAllowedHost (config c) (URLString base) = false) as ->; [|done].
    unfold isAllowedHost. rewrite decide_False by done.
    destruct (Parse (URLString base)) as [parsedURL|] eqn:E; [|done].
    by apply Hhost.
  - intros Hnone location. unfold isAllowedHost. by rewrite decide_True.
Qed.

(** C5. When the page of a job is rendered and the summarizer fails on
    its text, the [Result] carries the text and the links that passed
    the visited set, an empty summary and no error. *)
Theorem crawlURL_summarizer_fails c w v urlStr depth base page err :
  rendered c w urlStr depth base page →
  (Summarizer.Summarize (summarizer c) (ollama w) (Parser.Text page)).2
    = inr err →
  crawlURL c w v urlStr depth =
    ({| URL := urlStr; Content := Parser.Text page;
        Links := (collectLinks base v [] (Parser.Links page)).2;
        Depth := depth; Summary := ""; Error := None |},
     (collectLinks base v [] (Parser.Links page)).1).
Proof.
  intros Hpage Hfail. rewrite (crawlURL_rendered _ _ _ _ _ _ _ Hpage).
  destruct (Summarizer.Summarize _ _ _) as [tr [summary|e]]; [done|].
  by destruct (decide (Parser.Text page ≠ "")).
Qed.

(** C9, as amended. A link is normalised by parsing it, resolving it
    against the final location of the page when it is relative, writing
    it back as a string and removing every [/] at the end of that
    string. Normalising twice gives the same as normalising once for
    every link whose normal form is written back unchanged when parsed,
    and two links whose string forms differ by one [/] at the very end
    have the same normal form. *)
Theorem cleanedLink_stable base link :
  (∀ cleaned parsed,
     cleanedLink base link = Some cleaned →
     parsedLink base cleaned = Some parsed →
     URLString parsed = cleaned →
     cleanedLink base cleaned = Some cleaned)
  ∧ (∀ link' parsed parsed',
       parsedLink base link = Some parsed →
       parsedLink base link' = Some parsed' →
       URLString parsed' = URLString parsed +:+ "/" →
       cleanedLink base link' = cleanedLink base link).
Proof.
  split.
  - intros cleaned parsed Hclean Hparsed Hstring.
    unfold cleanedLink in *. rewrite Hparsed. cbn.
    destruct (parsedLink base link) as [first|]; [|done].
    cbn in Hclean. injection Hclean as <-. rewrite Hstring.
    unfold TrimRight. by rewrite TrimRightFunc_idemp.
  - intros link' parsed parsed' Hparsed Hparsed' Hstring.
    unfold cleanedLink. rewrite Hparsed, Hparsed'. cbn.
    rewrite Hstring. unfold TrimRight. by rewrite TrimRightFunc_snoc.
Qed.

End WithNetUrl.

Example Parse_seed :
  GoUrl.Parse Examples.seed = Some (Examples.page "example.com" "/a" "").
Proof. vm_compute. reflexivity. Qed.

Example crawlURL_blog :
  crawlURL (Examples.crawler (Examples.config 1 5 "")) Examples.blog ∅
    Examples.seed 0
  = ({| URL := Examples.seed; Content := "Hello world";
        Links := ["https://example.com/b"]; Depth := 0;
        Summary := "A greeting."; Error := None |},
     {["https://example.com/b"]}).
Proof. vm_compute. reflexivity. Qed.

(** C2 as stated fails: a job at depth 1 with [MaxDepth = 1], on a site
    that would serve a page with text and links, gets an empty [Result]. *)
Lemma crawlURL_at_max_depth_skips_page :
  let c := Examples.crawler (Examples.config 1 5 "") in
  1 >= MaxDepth (config c)
  ∧ ParseWithPlaywright Examples.blog Examples.seed
    = inl {| Parser.Text := "Hello world";
             Parser.Links := ["https://example.com/b"; "https://example.com/b/"] |}
  ∧ crawlURL c Examples.blog ∅ Examples.seed 1
    = ({| URL := Examples.seed; Content := ""; Links := []; Depth := 1;
          Summary := ""; Error := None |}, ∅).
Proof. vm_compute. split; [discriminate|]. split; reflexivity. Qed.

Lemma crawlURL_at_max_depth_witness :
  crawlURL (Examples.crawler (Examples.config 1 5 "")) Examples.blog ∅
    Examples.seed 1
  = ({| URL := Examples.seed; Content := ""; Links := []; Depth := 1;
        Summary := ""; Error := None |}, ∅).
Proof. apply crawlURL_at_max_depth. vm_compute. discriminate. Defined.

Lemma isAllowedHost_filter_witness :
  crawlURL (Examples.crawler (Examples.config 1 5 "example.com"))
    Examples.elsewhere ∅ Examples.seed 0
  = ({| URL := Examples.seed; Content := ""; Links := []; Depth := 0;
        Summary := "";
        Error := Some (ErrNonAllowedHost "https://other.com/landing") |}, ∅).
Proof.
  refine (proj1 (isAllowedHost_filter
    (Examples.crawler (Examples.config 1 5 "example.com"))
    Examples.elsewhere ∅ Examples.seed 0 "text/html; charset=utf-8"
    (Examples.page "other.com" "/landing" "")) _ _ _ _ _ _).
  - vm_compute. discriminate.
  - vm_compute. reflexivity.
  - reflexivity.
  - reflexivity.
  - reflexivity.
  - intros parsedURL. vm_compute. intros [= <-]. reflexivity.
Defined.

(** C4 as stated fails for a location that is fetched with another status
    than 200: the status is checked before the host. With the filter
    [example.com] set, a request that ends at [other.com] with status 404
    gets the error of the status, not that of the host. *)
Lemma disallowed_host_with_status_404 :
  let c := Examples.crawler (Examples.config 1 5 "example.com") in
  let w : @World GoUrl.lib :=
    {| limiter := Tick; NewRequest := λ _, None;
       Do := λ _, inl (@Build_Response GoUrl.lib 404 "text/html"
                         (Examples.page "other.com" "/landing" ""));
       ParseWithPlaywright := ParseWithPlaywright Examples.elsewhere;
       ollama := ollama Examples.elsewhere |} in
  AllowedHost (config c) ≠ ""
  ∧ (∀ parsedURL,
       GoUrl.Parse "https://other.com/landing" = Some parsedURL →
       Contains (GoUrl.Host parsedURL) (AllowedHost (config c)) = false)
  ∧ isAllowedHost (config c) "https://other.com/landing" = false
  ∧ crawlURL c w ∅ Examples.seed 0
    = ({| URL := Examples.seed; Content := ""; Links := []; Depth := 0;
          Summary := ""; Error := Some (ErrStatus 404) |}, ∅).
Proof.
  cbv zeta. split; [vm_compute; discriminate|]. split.
  { intros parsedURL. vm_compute. intros [= <-]. reflexivity. }
  split; vm_compute; reflexivity.
Qed.

Lemma crawlURL_summarizer_fails_witness :
  crawlURL (Examples.crawler (Examples.config 1 5 ""))
    (Examples.site (Examples.page "example.com" "/a" "") "Hello world"
       ["https://example.com/b"; "https://example.com/b/"] Examples.down)
    ∅ Examples.seed 0
  = ({| URL := Examples.seed; Content := "Hello world";
        Links := ["https://example.com/b"]; Depth := 0;
        Summary := ""; Error := None |},
     {["https://example.com/b"]}).
Proof.
  refine (crawlURL_summarizer_fails
    (Examples.crawler (Examples.config 1 5 ""))
    (Examples.site (Examples.page "example.com" "/a" "") "Hello world"
       ["https://example.com/b"; "https://example.com/b/"] Examples.down)
    ∅ Examples.seed 0 (Examples.page "example.com" "/a" "")
    {| Parser.Text := "Hello world";
       Parser.Links := ["https://example.com/b"; "https://example.com/b/"] |}
    (Summarizer.ErrAfterAttempts 3 (Summarizer.ErrMakeRequest "connection refused"))
    _ _).
  - split; try reflexivity.
    exists "text/html; charset=utf-8". split; reflexivity.
  - vm_compute. reflexivity.
Defined.

Lemma cleanedLink_stable_witness :
  cleanedLink (L := GoUrl.lib) (Examples.page "example.com" "/a" "") "https://example.com/b"
    = Some "https://example.com/b"
  ∧ cleanedLink (L := GoUrl.lib) (Examples.page "example.com" "/a" "") "https://example.com/b/"
    = cleanedLink (L := GoUrl.lib) (Examples.page "example.com" "/a" "") "https://example.com/b".
Proof.
  destruct (cleanedLink_stable (L := GoUrl.lib) (Examples.page "example.com" "/a" "")
              "https://example.com/b") as [Hidem Hslash].
  split.
  - apply (Hidem _ (Examples.page "example.com" "/b" "" : @NetUrl.URL GoUrl.lib));
      vm_compute; reflexivity.
  - apply (Hslash _ (Examples.page "example.com" "/b" "" : @NetUrl.URL GoUrl.lib)
             (Examples.page "example.com" "/b/" "" : @NetUrl.URL GoUrl.lib));
      vm_compute; reflexivity.
Defined.

(** C9 as stated fails twice. Normalising ["http://a.com/#/"] gives
    ["http://a.com/#"], and normalising that gives ["http://a.com"]. The
    links ["https://example.com/b/?x=1"] and ["https://example.com/b?x=1"]
    differ only by the [/] that ends the path, and their normal forms
    differ. *)
Lemma cleanedLink_not_idempotent :
  let base : @NetUrl.URL GoUrl.lib := Examples.page "example.com" "/a" "" in
  (cleanedLink base "http://a.com/#/" = Some "http://a.com/#"
   ∧ cleanedLink base "http://a.com/#" = Some "http://a.com")
  ∧ (GoUrl.Parse "https://example.com/b/?x=1"
       = Some (Examples.page "example.com" "/b/" "x=1")
     ∧ GoUrl.Parse "https://example.com/b?x=1"
       = Some (Examples.page "example.com" "/b" "x=1")
     ∧ cleanedLink base "https://example.com/b/?x=1"
       = Some "https://example.com/b/?x=1"
     ∧ cleanedLink base "https://example.com/b?x=1"
       = Some "https://example.com/b?x=1").
Proof. vm_compute. repeat split; reflexivity. Qed.

End CrawlURLFacts.


(** * Properties of [Crawl] *)

Module CrawlFacts.
Import GoStrings NetUrl Crawler.

Section WithNetUrl.
Context {L : Lib}.

Lemma idle_insert ws i w : idle ws → resting w → idle (<[i:=w]> ws).
Proof. apply Forall_insert. Qed.

Lemma busy_of_idle ws i w0 w :
  idle ws → ws !! i = Some w0 → busy i w (<[i:=w]> ws).
Proof.
  intros Hidle Hi. split.
  - apply list_lookup_insert_eq. by eapply lookup_lt_Some.
  - intros j w' Hne. rewrite list_lookup_insert_ne by done.
    intros Hj. by eapply Forall_lookup_1.
Qed.

Lemma busy_insert_other ws i j w w' :
  busy i w ws → j ≠ i → resting w' → busy i w (<[j:=w']> ws).
Proof.
  intros [Hi Hrest] Hne Hw'. split.
  - by rewrite list_lookup_insert_ne.
  - intros k wk Hk. destruct (decide (j = k)) as [<-|Hjk].
    + intros Hlook. destruct (decide (j < length ws)%nat).
      * rewrite list_lookup_insert_eq in Hlook by done. by injection Hlook as <-.
      * rewrite list_insert_ge in Hlook by lia. by eapply Hrest.
    + rewrite list_lookup_insert_ne by done. by apply Hrest.
Qed.

Lemma busy_settle ws i w w' : busy i w ws → resting w' → idle (<[i:=w']> ws).
Proof.
  intros [Hi Hrest] Hw'. apply Forall_lookup. intros j wj.
  destruct (decide (i = j)) as [<-|Hne].
  - rewrite list_lookup_insert_eq by (by eapply lookup_lt_Some).
    by intros [= <-].
  - rewrite list_lookup_insert_ne by done. by apply Hrest.
Qed.

Lemma busy_unique ws i w j w' :
  busy i w ws → ws !! j = Some w' → ¬ resting w' → j = i ∧ w' = w.
Proof.
  intros [Hi Hrest] Hj Hw'. destruct (decide (j = i)) as [->|Hne].
  - split; [done|]. congruence.
  - exfalso. by eapply Hw', Hrest.
Qed.

Lemma idle_lookup ws i w : idle ws → ws !! i = Some w → resting w.
Proof. intros Hidle Hi. by eapply Forall_lookup_1. Qed.

Lemma not_resting_InCrawlURL url : ¬ resting (InCrawlURL url).
Proof. by intros [|]. Qed.

Lemma not_resting_AtResults result : ¬ resting (AtResults result).
Proof. by intros [|]. Qed.

Lemma pushes_snoc tr l :
  pushes (tr ++ [l]) = pushes tr ++ match l with Push url => [url] | _ => [] end.
Proof. unfold pushes. rewrite omap_app. by destruct l. Qed.

Lemma dispatched_snoc tr l :
  dispatched (tr ++ [l])
  = dispatched tr ++ match l with Dispatch _ url => [url] | _ => [] end.
Proof. unfold dispatched. rewrite omap_app. by destruct l. Qed.

Lemma published_snoc tr l :
  published (tr ++ [l])
  = published tr ++ match l with Publish _ r => [r] | _ => [] end.
Proof. unfold published. rewrite omap_app. by destruct l. Qed.

Lemma dropped_snoc tr l :
  dropped (tr ++ [l]) = dropped tr ++ match l with Drop _ r => [r] | _ => [] end.
Proof. unfold dropped. rewrite omap_app. by destruct l. Qed.

Lemma consumed_snoc tr l :
  consumed (tr ++ [l]) = consumed tr ++ match l with Consume r => [r] | _ => [] end.
Proof. unfold consumed. rewrite omap_app. by destruct l. Qed.

Lemma crawls_snoc tr l :
  crawls (tr ++ [l])
  = crawls tr ++ match l with Crawled _ url w r => [(url, w, r)] | _ => [] end.
Proof. unfold crawls. rewrite omap_app. by destruct l. Qed.

(** A step that touches neither the workers, the visited set nor the
    history of the job keeps the phase. *)
Lemma phase_frame c seedURL tr tr' s s' :
  dispatched tr' = dispatched tr → crawls tr' = crawls tr →
  published tr' = published tr → dropped tr' = dropped tr →
  workers s' = workers s → seen s' = seen s →
  (cancelled s = true → cancelled s' = true) →
  phase c seedURL tr s → phase c seedURL tr' s'.
Proof.
  intros Hd Hc Hp Hx Hw Hv Hcancel [| i | i w r | w r ? ? ? ? Hend].
  - apply Waiting; congruence.
  - apply (Fetching _ _ _ _ i); congruence.
  - apply (Sending _ _ _ _ i w r); congruence.
  - apply (Settled _ _ _ _ w r); try congruence.
    destruct Hend as [[? ?]|(? & ? & ?)]; [left|right]; repeat split;
      try congruence. by apply Hcancel.
Qed.

(** A resting worker that returns keeps the phase. *)
Lemma phase_exit c seedURL tr s s' i :
  workers s !! i = Some AtJobs →
  workers s' = <[i:=Returned]> (workers s) → seen s' = seen s →
  cancelled s' = cancelled s →
  phase c seedURL tr s → phase c seedURL (tr ++ [Exit i]) s'.
Proof.
  intros Hi Hw Hv Hb Hphase.
  assert (resting Returned) as Hrest by (by right).
  assert (∀ k w, busy k w (workers s) → ¬ resting w → i ≠ k) as Hne.
  { intros k w [Hk _] Hw' ->. rewrite Hi in Hk. injection Hk as <-.
    apply Hw'. by left. }
  destruct Hphase as [| k | k w r | w r ? ? ? ? Hend].
  - apply Waiting;
      rewrite ?dispatched_snoc, ?crawls_snoc, ?published_snoc, ?dropped_snoc,
        ?app_nil_r, ?Hw, ?Hv; try done.
    by apply idle_insert.
  - apply (Fetching _ _ _ _ k);
      rewrite ?dispatched_snoc, ?crawls_snoc, ?published_snoc, ?dropped_snoc,
        ?app_nil_r, ?Hw, ?Hv; try done.
    apply busy_insert_other; [done| |done].
    eapply Hne; [done|]. apply not_resting_InCrawlURL.
  - apply (Sending _ _ _ _ k w r);
      rewrite ?dispatched_snoc, ?crawls_snoc, ?published_snoc, ?dropped_snoc,
        ?app_nil_r, ?Hw, ?Hv; try done.
    apply busy_insert_other; [done| |done].
    eapply Hne; [done|]. apply not_resting_AtResults.
  - apply (Settled _ _ _ _ w r);
      rewrite ?dispatched_snoc, ?crawls_snoc, ?published_snoc, ?dropped_snoc,
        ?app_nil_r, ?Hw, ?Hv, ?Hb; try done.
    by apply idle_insert.
Qed.

Lemma busy_replace ws i w w' : busy i w ws → busy i w' (<[i:=w']> ws).
Proof.
  intros [Hi Hrest]. split.
  - apply list_lookup_insert_eq. by eapply lookup_lt_Some.
  - intros j wj Hne. rewrite list_lookup_insert_ne by done. by apply Hrest.
Qed.

Lemma all_returned_lookup ws i w :
  Forall (λ w, w = Returned) ws → ws !! i = Some w → w = Returned.
Proof. intros Hall Hi. by apply (Forall_lookup_1 _ _ _ _ Hall Hi). Qed.

Ltac snoc :=
  rewrite ?pushes_snoc, ?dispatched_snoc, ?published_snoc, ?dropped_snoc,
    ?consumed_snoc, ?crawls_snoc, ?app_nil_r; cbn.

Lemma invariant_pushes c seedURL tr s :
  invariant c seedURL tr s → pushes tr = [] ∨ pushes tr = [seedURL].
Proof.
  intros [Hmain _ _ _ _ _]. destruct (main s); tauto.
Qed.

(** The queue holds the seed or nothing, and a job taken from it is the
    seed, taken for the first time. *)
Lemma invariant_head c seedURL tr s url rest :
  invariant c seedURL tr s → jobs s = url :: rest →
  dispatched tr = [] ∧ url = seedURL ∧ rest = [].
Proof.
  intros Hinv Hjobs. pose proof (inv_jobs _ _ _ _ Hinv) as Hq.
  rewrite Hjobs in Hq.
  destruct (invariant_pushes _ _ _ _ Hinv) as [Hp|Hp]; rewrite Hp in Hq.
  - by destruct (dispatched tr).
  - destruct (dispatched tr) as [|d ds]; simplify_eq/=; [done|].
    by destruct ds.
Qed.

Lemma invariant_start c seedURL s0 :
  Crawl c seedURL = Spawned s0 → invariant c seedURL [] s0.
Proof.
  unfold Crawl. destruct (Parse seedURL) as [parsedURL|]; [|done].
  destruct (IsAbs parsedURL); [|done]. cbn.
  destruct (MaxWorkers (config c) <? 0); [done|]. intros [= <-].
  split; cbn; try done.
  - apply length_replicate.
  - apply Waiting; try done. apply Forall_replicate. by left.
Qed.

Lemma invariant_step c seedURL tr s l s' :
  invariant c seedURL tr s → step c s l s' →
  invariant c seedURL (tr ++ [l]) s'.
Proof.
  intros Hinv Hstep.
  pose proof Hinv as [Hmain Hjobs Hres Hws Hclosed Hphase].
  destruct Hstep as
    [ v b m j jc r rc ws
    | v b seed j jc r rc ws Hroom
    | v b j r rc ws
    | v b m url j jc r rc ws i Hi
    | v m j jc r rc ws i Hi
    | v b m r rc ws i Hi
    | v b m j jc r rc ws i url w result v' Hi Hctx Hcrawl
    | v b m j jc r ws i result Hi Hroom
    | v m j jc r rc ws i result Hi
    | v b m j jc r ws Hall
    | v b m j jc result r rc ws ]; cbn in *.
  - (* Cancel *)
    split; snoc; [done..|].
    eapply phase_frame; [..|exact Hphase]; snoc; done.
  - (* Push *)
    destruct Hmain as (-> & Hp & ->).
    split; snoc; [by rewrite Hp|by rewrite app_assoc, Hjobs|done..|].
    eapply phase_frame; [..|exact Hphase]; snoc; done.
  - (* Close *)
    split; snoc; [by destruct Hmain|done..|].
    eapply phase_frame; [..|exact Hphase]; snoc; done.
  - (* Dispatch *)
    destruct (invariant_head _ _ _ _ url j Hinv eq_refl) as (Hd & -> & ->).
    split; snoc;
      [by destruct m|done|done|by rewrite length_insert| |].
    + intros Hrc. by pose proof (all_returned_lookup _ _ _ (Hclosed Hrc) Hi).
    + destruct Hphase as [? ? ? ? Hidle ?| | |]; try congruence.
      apply (Fetching _ _ _ _ i); snoc; try done.
      * by rewrite Hd.
      * apply (busy_of_idle _ _ AtJobs); [exact Hidle|exact Hi].
  - (* Exit, cancelled *)
    split; snoc; [by destruct m|done|done|by rewrite length_insert| |].
    + intros Hrc. apply Forall_insert; auto.
    + eapply phase_exit; [..|exact Hphase]; done.
  - (* Exit, queue closed *)
    rewrite app_nil_r in Hjobs.
    split; snoc; [by destruct m|done|done|by rewrite length_insert| |].
    + intros Hrc. apply Forall_insert; auto.
    + eapply phase_exit; [..|exact Hphase]; done.
  - (* Crawled *)
    split; snoc; [by destruct m|done|done|by rewrite length_insert| |].
    + intros Hrc. by pose proof (all_returned_lookup _ _ _ (Hclosed Hrc) Hi).
    + destruct Hphase as
        [? ? ? ? Hidle ?| k Hd Hc Hp Hx Hbusy Hseen
        | k w0 r0 ? ? ? ? Hbusy ?| w0 r0 ? ? ? Hidle ?]; cbn in *.
      * destruct (not_resting_InCrawlURL url). by eapply idle_lookup.
      * destruct (busy_unique _ _ _ _ _ Hbusy Hi) as [-> [= ->]];
          [apply not_resting_InCrawlURL|].
        apply (Sending _ _ _ _ k w result); snoc; try done.
        -- by rewrite Hc.
        -- by eapply busy_replace.
        -- by rewrite <- Hseen.
      * by destruct (busy_unique _ _ _ _ _ Hbusy Hi) as [_ ?];
          [apply not_resting_InCrawlURL|].
      * destruct (not_resting_InCrawlURL url). by eapply idle_lookup.
  - (* Publish *)
    split; snoc;
      [by destruct m|done|by rewrite Hres, app_assoc|by rewrite length_insert
      |done|].
    destruct Hphase as
      [? ? ? ? Hidle ?| k ? ? ? ? Hbusy ?
      | k w0 r0 Hd Hc Hp Hx Hbusy Hrun| w0 r0 ? ? ? Hidle ?]; cbn in *.
    + destruct (not_resting_AtResults result). by eapply idle_lookup.
    + by destruct (busy_unique _ _ _ _ _ Hbusy Hi) as [_ ?];
        [apply not_resting_AtResults|].
    + destruct (busy_unique _ _ _ _ _ Hbusy Hi) as [-> [= ->]];
        [apply not_resting_AtResults|].
      apply (Settled _ _ _ _ w0 r0); snoc; try done.
      * eapply busy_settle; [done|]. by left.
      * left. by rewrite Hp.
    + destruct (not_resting_AtResults result). by eapply idle_lookup.
  - (* Drop *)
    split; snoc; [by destruct m|done|done|by rewrite length_insert| |].
    + intros Hrc. apply Forall_insert; auto.
    + destruct Hphase as
        [? ? ? ? Hidle ?| k ? ? ? ? Hbusy ?
        | k w0 r0 Hd Hc Hp Hx Hbusy Hrun| w0 r0 ? ? ? Hidle ?]; cbn in *.
      * destruct (not_resting_AtResults result). by eapply idle_lookup.
      * by destruct (busy_unique _ _ _ _ _ Hbusy Hi) as [_ ?];
          [apply not_resting_AtResults|].
      * destruct (busy_unique _ _ _ _ _ Hbusy Hi) as [-> [= ->]];
          [apply not_resting_AtResults|].
        apply (Settled _ _ _ _ w0 r0); snoc; try done.
        -- eapply busy_settle; [done|]. by right.
        -- right. by rewrite Hx.
      * destruct (not_resting_AtResults result). by eapply idle_lookup.
  - (* CloseResults *)
    split; snoc; [by destruct m|done..|].
    eapply phase_frame; [..|exact Hphase]; snoc; done.
  - (* Consume *)
    split; snoc; [by destruct m|done|by rewrite Hres, <- app_assoc|done..|].
    eapply phase_frame; [..|exact Hphase]; snoc; done.
Qed.

Lemma invariant_run c seedURL s0 tr s :
  Crawl c seedURL = Spawned s0 → run c s0 tr s → invariant c seedURL tr s.
Proof.
  intros Hstart Hrun. induction Hrun as [|tr s l s' _ IH Hstep].
  - by apply invariant_start.
  - by eapply invariant_step.
Qed.

Lemma run_cons c s0 l s1 tr s :
  step c s0 l s1 → run c s1 tr s → run c s0 (l :: tr) s.
Proof.
  intros Hstep Hrun. induction Hrun as [|tr s l' s' _ IH Hstep'].
  - apply (run_snoc c s0 [] s0 l s1); [apply run_nil|done].
  - apply (run_snoc c s0 (l :: tr) s l' s'); done.
Qed.

Lemma collectLinks_keeps base v links found x :
  x ∈ links → x ∈ (collectLinks base v links found).2.
Proof.
  revert v links. induction found as [|link found IH]; intros v links Hx; [done|].
  cbn [collectLinks]. destruct (cleanedLink base link) as [cleaned|]; [|by apply IH].
  cbn. apply IH. destruct (bool_decide (cleaned ∈ v)); [done|].
  apply elem_of_app. by left.
Qed.

(** A link whose normal form is not yet in the visited set passes the
    check and is listed. *)
Lemma collectLinks_admits base v links found link cleaned :
  cleaned ∉ v → link ∈ found → cleanedLink base link = Some cleaned →
  cleaned ∈ (collectLinks base v links found).2.
Proof.
  revert v links. induction found as [|link0 found IH]; intros v links Hfresh Hin Hclean.
  { by apply elem_of_nil in Hin. }
  cbn [collectLinks]. destruct (cleanedLink base link0) as [cleaned0|] eqn:E0.
  - cbn. destruct (decide (cleaned0 = cleaned)) as [->|Hne].
    + apply collectLinks_keeps. rewrite bool_decide_eq_false_2 by done.
      apply elem_of_app. right. by apply list_elem_of_singleton.
    + apply elem_of_cons in Hin as [->|Hin]; [congruence|].
      apply IH; [set_solver|done..].
  - apply elem_of_cons in Hin as [->|Hin]; [congruence|]. by apply IH.
Qed.

Lemma collectLinks_grows base v links found :
  v ⊆ (collectLinks base v links found).1.
Proof.
  revert v links. induction found as [|link found IH]; intros v links; [done|].
  cbn [collectLinks]. destruct (cleanedLink base link) as [cleaned|]; [|by apply IH].
  cbn. etrans; [|apply IH]. set_solver.
Qed.

(** The visited set grows by the links that are listed, and by nothing
    else. *)
Lemma collectLinks_seen base v links found :
  (collectLinks base v links found).1 ∪ list_to_set links
  = v ∪ list_to_set (collectLinks base v links found).2.
Proof.
  revert v links. induction found as [|link found IH]; intros v links; [done|].
  cbn [collectLinks]. destruct (cleanedLink base link) as [cleaned|]; [|by apply IH].
  cbn. destruct (bool_decide (cleaned ∈ v)) eqn:Hloaded.
  - apply bool_decide_eq_true in Hloaded. rewrite IH. set_solver.
  - specialize (IH ({[cleaned]} ∪ v) (links ++ [cleaned])).
    pose proof (collectLinks_grows base ({[cleaned]} ∪ v) (links ++ [cleaned]) found)
      as Hgrows.
    pose proof (collectLinks_keeps base ({[cleaned]} ∪ v) (links ++ [cleaned]) found
                  cleaned) as Hkeeps.
    destruct (collectLinks base ({[cleaned]} ∪ v) (links ++ [cleaned]) found)
      as [v1 out]. cbn in *.
    rewrite list_to_set_app_L in IH. cbn in IH.
    assert (cleaned ∈ out) by (apply Hkeeps, elem_of_app; right; by left).
    clear Hkeeps Hloaded. apply set_eq. intros x.
    assert (x ∈ v1 ∪ (list_to_set links ∪ ({[cleaned]} ∪ ∅))
            ↔ x ∈ {[cleaned]} ∪ v ∪ list_to_set out) as IHx by (by rewrite IH).
    clear IH. specialize (Hgrows x). set_unfold.
    destruct (decide (x = cleaned)) as [->|Hne]; tauto.
Qed.

Lemma crawlURL_seen c w v urlStr depth result v' :
  crawlURL c w v urlStr depth = (result, v') →
  v' = v ∪ list_to_set (Links result).
Proof.
  assert (v = v ∪ list_to_set []) as Hsame by set_solver.
  unfold crawlURL, failed.
  destruct (bool_decide _); [by intros [= <- <-]|].
  destruct (limiter w); [by intros [= <- <-]|].
  destruct (NewRequest w urlStr); [by intros [= <- <-]|].
  destruct (Do w urlStr) as [resp|]; [|by intros [= <- <-]].
  destruct (bool_decide _); [by intros [= <- <-]|].
  destruct (negb _); [by intros [= <- <-]|].
  destruct (negb _); [by intros [= <- <-]|].
  destruct (ParseWithPlaywright w urlStr) as [page|]; [|by intros [= <- <-]].
  pose proof (collectLinks_seen (RequestURL resp) v [] (Parser.Links page)) as Hseen.
  destruct (collectLinks _ _ _ _) as [v1 links]. intros [= <- <-].
  cbn in *. rewrite <- Hseen. set_solver.
Qed.

Lemma crawlURL_result c w v urlStr depth result v' :
  crawlURL c w v urlStr depth = (result, v') →
  URL result = urlStr ∧ Depth result = depth.
Proof.
  intros Hrun. pose proof (CrawlURLFacts.crawlURL_URL_Depth c w v urlStr depth).
  by rewrite Hrun in *.
Qed.

(** The parts of the history of a crawl, by phase. *)
Lemma invariant_history c seedURL tr s :
  invariant c seedURL tr s →
  (dispatched tr = [] ∨ dispatched tr = [seedURL])
  ∧ (crawls tr = [] ∨
     ∃ w result v, crawls tr = [(seedURL, w, result)]
       ∧ crawlURL c w (visited c) seedURL 0 = (result, v))
  ∧ (published tr = [] ∨
     ∃ w result v, published tr = [result] ∧ dispatched tr = [seedURL]
       ∧ crawlURL c w (visited c) seedURL 0 = (result, v)).
Proof.
  intros [_ _ _ _ _ [| | |w result ? ? ? ? Hend]]; try by eauto 10.
  split; [by right|]. split; [by eauto 10|].
  destruct Hend as [[? ?]|(? & ? & ?)]; by eauto 10.
Qed.

(** C1, as amended. In every execution of [Crawl] the only value ever sent
    on the job queue is the seed, sent once by the caller of [Crawl]; every
    job a worker takes is the seed and is crawled at depth 0; the links a
    worker discovers and the visited set admits are listed in the [Result]
    and are not sent on the job queue. *)
Theorem Crawl_pushes_only_seed c seedURL s0 tr s :
  Crawl c seedURL = Spawned s0 → run c s0 tr s →
  (pushes tr = [] ∨ pushes tr = [seedURL])
  ∧ (∀ url, url ∈ dispatched tr → url = seedURL)
  ∧ (∀ url w result, (url, w, result) ∈ crawls tr →
       url = seedURL ∧ Depth result = 0)
  ∧ (∀ result, result ∈ published tr →
       URL result = seedURL ∧ Depth result = 0
       ∧ ∀ link, link ∈ Links result → link ≠ seedURL → link ∉ pushes tr).
Proof.
  intros Hstart Hrun. pose proof (invariant_run _ _ _ _ _ Hstart Hrun) as Hinv.
  pose proof (invariant_pushes _ _ _ _ Hinv) as Hpushes.
  destruct (invariant_history _ _ _ _ Hinv) as (Hd & Hc & Hp).
  split; [done|]. split; [|split].
  - intros url Hin. destruct Hd as [Hd|Hd]; rewrite Hd in Hin.
    + by apply elem_of_nil in Hin.
    + by apply list_elem_of_singleton in Hin.
  - intros url w result Hin.
    destruct Hc as [Hc|(w0 & r0 & v & Hc & Hcrawl)]; rewrite Hc in Hin.
    + by apply elem_of_nil in Hin.
    + apply list_elem_of_singleton in Hin. injection Hin as -> -> ->.
      split; [done|]. by destruct (crawlURL_result _ _ _ _ _ _ _ Hcrawl).
  - intros result Hin.
    destruct Hp as [Hp|(w0 & r0 & v & Hp & _ & Hcrawl)]; rewrite Hp in Hin.
    + by apply elem_of_nil in Hin.
    + apply list_elem_of_singleton in Hin. subst r0.
      destruct (crawlURL_result _ _ _ _ _ _ _ Hcrawl) as [-> ->].
      split; [done|]. split; [done|]. intros link _ Hne Hpushed.
      destruct Hpushes as [Hq|Hq]; rewrite Hq in Hpushed.
      * by apply elem_of_nil in Hpushed.
      * by apply list_elem_of_singleton in Hpushed.
Qed.

(** C3, as amended. A job taken from the queue gives at most one [Result]
    on the stream, and a [Result] is given up only after cancellation. A
    worker that holds a [Result] is never blocked: it can publish at once.
    Without cancellation, when all workers have returned the published
    [Result]s are those of the dispatched jobs, one each. *)
Theorem Crawl_publishes_at_most_once c seedURL s0 tr s :
  Crawl c seedURL = Spawned s0 → run c s0 tr s →
  (length (published tr) + length (dropped tr) ≤ length (dispatched tr))%nat
  ∧ (∀ result, result ∈ published tr → URL result ∈ dispatched tr)
  ∧ (dropped tr ≠ [] → cancelled s = true)
  ∧ (cancelled s = false → Forall (λ w, w = Returned) (workers s) →
     URL <$> published tr = dispatched tr)
  ∧ (∀ i result, workers s !! i = Some (AtResults result) →
     ∃ s', step c s (Publish i result) s').
Proof.
  intros Hstart Hrun. pose proof (invariant_run _ _ _ _ _ Hstart Hrun) as Hinv.
  destruct Hinv as [_ _ Hres Hws Hclosed Hphase].
  destruct Hphase as
    [Hd Hc Hp Hx Hidle Hseen| k Hd Hc Hp Hx Hbusy Hseen
    | k w r Hd Hc Hp Hx Hbusy Hcrawl| w r Hd Hc Hcrawl Hidle Hend].
  - rewrite Hd, Hp, Hx. repeat split; try done.
    + intros result Hin. by apply elem_of_nil in Hin.
    + intros i result Hi. destruct (not_resting_AtResults result).
      by eapply idle_lookup.
  - rewrite Hd, Hp, Hx. repeat split; try done; cbn; try lia.
    + intros result Hin. by apply elem_of_nil in Hin.
    + intros _ Hall. destruct Hbusy as [Hk _].
      by pose proof (all_returned_lookup _ _ _ Hall Hk).
    + intros i result Hi.
      by destruct (busy_unique _ _ _ _ _ Hbusy Hi) as [_ ?];
        [apply not_resting_AtResults|].
  - rewrite Hd, Hp, Hx. repeat split; try done; cbn; try lia.
    + intros result Hin. by apply elem_of_nil in Hin.
    + intros _ Hall. destruct Hbusy as [Hk _].
      by pose proof (all_returned_lookup _ _ _ Hall Hk).
    + intros i result Hi.
      assert (results s = []) as Hbuf.
      { rewrite Hp in Hres. symmetry in Hres.
        by apply app_eq_nil in Hres as [_ ?]. }
      assert (results_closed s = false) as Hopen.
      { destruct (results_closed s) eqn:E; [|done].
        by pose proof (all_returned_lookup _ _ _ (Hclosed eq_refl) Hi). }
      assert (0 < capacity c)%nat as Hroom.
      { rewrite <- Hws. apply lookup_lt_Some in Hi. lia. }
      destruct s as [v b m j jc rs rc ws]; cbn in *. subst rs rc.
      eexists. by apply step_publish.
  - destruct (crawlURL_result _ _ _ _ _ _ _ Hcrawl) as [Hurl _].
    destruct Hend as [[Hp Hx]|(Hp & Hx & Hb)]; rewrite Hd, Hp, Hx.
    + repeat split; try done; cbn; try lia.
      * intros result Hin. apply list_elem_of_singleton in Hin as ->.
        rewrite Hurl. by apply list_elem_of_singleton.
      * intros _ _. by rewrite Hurl.
      * intros i result Hi. destruct (not_resting_AtResults result).
        by eapply idle_lookup.
    + repeat split; try done; cbn; try lia.
      * intros result Hin. by apply elem_of_nil in Hin.
      * intros Hnot. congruence.
      * intros i result Hi. destruct (not_resting_AtResults result).
        by eapply idle_lookup.
Qed.

Lemma lookup_insert_Returned (ws : list worker) i k w w' :
  ws !! i = Some w → w' ≠ Returned →
  <[i:=w']> ws !! k = Some Returned → ws !! k = Some Returned.
Proof.
  intros Hi Hw'. destruct (decide (i = k)) as [<-|Hne].
  - rewrite list_lookup_insert_eq by (by eapply lookup_lt_Some).
    intros [= ->]. done.
  - by rewrite list_lookup_insert_ne.
Qed.

(** Unless the context is cancelled, a worker returns only when the queue
    is closed and empty. *)
Lemma returned_after_close c seedURL s0 tr s :
  Crawl c seedURL = Spawned s0 → run c s0 tr s →
  cancelled s = false → ∀ k, workers s !! k = Some Returned →
  jobs s = [] ∧ jobs_closed s = true.
Proof.
  intros Hstart Hrun. induction Hrun as [|tr s l s' Hrun IH Hstep].
  { intros _ k Hk. revert Hstart Hk. unfold Crawl.
    repeat case_match; try done. intros [= <-]. cbn.
    by intros [[=] _]%lookup_replicate. }
  pose proof (invariant_run _ _ _ _ _ Hstart Hrun) as [Hmain _ _ _ _ _].
  destruct Hstep as [| | |? ? ? ? ? ? ? ? ? ? Hi|? ? ? ? ? ? ? ? Hi
                     |? ? ? ? ? ? ? Hi|? ? ? ? ? ? ? ? ? ? ? ? ? Hi
                     |? ? ? ? ? ? ? ? ? Hi|? ? ? ? ? ? ? ? ? Hi| |];
    cbn in *; intros Hb k Hk; try done.
  - destruct Hmain as (_ & _ & ->). by destruct (IH Hb k Hk).
  - by destruct (IH Hb k Hk).
  - apply (lookup_insert_Returned _ _ _ _ _ Hi) in Hk; [|done].
    by destruct (IH Hb k Hk).
  - apply (lookup_insert_Returned _ _ _ _ _ Hi) in Hk; [|done]. by apply (IH Hb k).
  - apply (lookup_insert_Returned _ _ _ _ _ Hi) in Hk; [|done]. by apply (IH Hb k).
  - by apply (IH Hb k).
  - by apply (IH Hb k).
Qed.


(** Without workers the queue has no buffer and no reader: the send of the
    seed can never run. *)
Lemma Crawl_blocks_without_workers c seedURL s0 tr s :
  MaxWorkers (config c) = 0 → Crawl c seedURL = Spawned s0 → run c s0 tr s →
  main s = SendSeed seedURL ∧ ∀ url s', ¬ step c s (Push url) s'.
Proof.
  intros Hnone Hstart Hrun.
  assert (∀ s l s', step c s l s' → main s = SendSeed seedURL →
                    main s' = SendSeed seedURL) as Hkeep.
  { intros s1 l s2 Hstep Hm. destruct Hstep; cbn in *; try done.
    unfold capacity in *. rewrite Hnone in *. cbn in *. lia. }
  split.
  - induction Hrun as [|tr s l s' _ IH Hstep]; [|by eapply Hkeep].
    revert Hstart. unfold Crawl. repeat case_match; by intros [= <-].
  - intros url s' Hstep. inversion Hstep; subst.
    unfold capacity in *. rewrite Hnone in *. cbn in *. lia.
Qed.

(** C10, as amended. [Crawl] on a fresh crawler, as [New] returns it,
    does not record the seed: the visited
    set is empty when the workers start and still empty when a worker
    enters [crawlURL], which happens for the seed only. [crawlURL] records
    the links it lists in the [Result] and nothing else. Hence the normal
    form of every link found on the rendered page of the seed, in
    particular of a link back to the seed, passes the check and is listed
    in the [Result]. *)
Theorem seed_not_marked_visited cfg o c seedURL s0 tr s i url w result s' :
  New cfg o = Some c → Crawl c seedURL = Spawned s0 →
  run c s0 tr s → step c s (Crawled i url w result) s' →
  url = seedURL ∧ seen s0 = ∅ ∧ seen s = ∅
  ∧ seen s' = list_to_set (Links result)
  ∧ ∀ base page link cleaned,
      rendered c w seedURL 0 base page →
      link ∈ Parser.Links page → cleanedLink base link = Some cleaned →
      cleaned ∈ Links result.
Proof.
  intros Hnew Hstart Hrun Hstep.
  assert (visited c = ∅) as Hfresh.
  { revert Hnew. unfold New. case_match; [done|]. by intros [= <-]. }
  pose proof (invariant_run _ _ _ _ _ Hstart Hrun) as [_ _ _ _ _ Hphase].
  pose proof (invariant_start _ _ _ Hstart) as [_ _ _ _ _ Hphase0].
  assert (seen s0 = ∅) as Hseen0.
  { revert Hstart. unfold Crawl. repeat case_match; try done.
    by intros [= <-]. }
  inversion Hstep as
    [| | | | | |v b m j jc r rc ws i' url' w' result' v' Hi Hctx Hcrawl| | | |];
    subst. cbn in *.
  assert (url = seedURL ∧ v = ∅) as [-> ->].
  { destruct Hphase as
      [? ? ? ? Hidle ?| k ? ? ? ? Hbusy Hseen
      | k w0 r0 ? ? ? ? Hbusy ?| w0 r0 ? ? ? Hidle ?]; cbn in *.
    - destruct (not_resting_InCrawlURL url). by eapply idle_lookup.
    - destruct (busy_unique _ _ _ _ _ Hbusy Hi) as [_ [= ->]];
        [apply not_resting_InCrawlURL|]. split; congruence.
    - by destruct (busy_unique _ _ _ _ _ Hbusy Hi) as [_ ?];
        [apply not_resting_InCrawlURL|].
    - destruct (not_resting_InCrawlURL url). by eapply idle_lookup. }
  split; [done|]. split; [done|]. split; [done|]. split.
  - rewrite (crawlURL_seen _ _ _ _ _ _ _ Hcrawl). set_solver.
  - intros base page link cleaned Hpage Hin Hclean.
    rewrite (CrawlURLFacts.crawlURL_rendered _ _ _ _ _ _ _ Hpage) in Hcrawl.
    injection Hcrawl as <- _. cbn.
    eapply collectLinks_admits; [|done..]. set_solver.
Qed.

End WithNetUrl.

Lemma Crawl_spawns n :
  Crawl (Examples.crawler (Examples.config 2 (Z.of_nat n) "")) Examples.seed
  = Spawned (Examples.spawned n).
Proof.
  unfold Crawl. change (Parse Examples.seed) with (GoUrl.Parse Examples.seed).
  rewrite CrawlURLFacts.Parse_seed. cbn.
  destruct (Z.ltb_spec (Z.of_nat n) 0); [lia|].
  unfold Examples.spawned. by rewrite Nat2Z.id.
Qed.

Lemma run_blog :
  run (Examples.crawler (Examples.config 2 1 "")) (Examples.spawned 1)
    Examples.blog_trace Examples.blog_end.
Proof.
  unfold Examples.blog_trace, Examples.spawned.
  eapply run_cons; [apply step_push; vm_compute; lia|].
  eapply run_cons; [apply step_close|].
  eapply run_cons; [by apply step_dispatch|].
  eapply run_cons.
  { eapply step_crawl; [done|done|]. vm_compute. reflexivity. }
  eapply run_cons; [apply step_publish; [done|vm_compute; lia]|].
  eapply run_cons; [by apply step_exit_closed|].
  eapply run_cons; [apply step_close_results; by repeat constructor|].
  apply run_nil.
Qed.

Lemma run_interrupted :
  run (Examples.crawler (Examples.config 2 1 "")) (Examples.spawned 1)
    Examples.interrupted_trace Examples.interrupted_end.
Proof.
  unfold Examples.interrupted_trace, Examples.spawned.
  eapply run_cons; [apply step_push; vm_compute; lia|].
  eapply run_cons; [apply step_close|].
  eapply run_cons; [by apply step_dispatch|].
  eapply run_cons; [apply step_cancel|].
  eapply run_cons.
  { eapply step_crawl; [done|done|]. vm_compute. reflexivity. }
  eapply run_cons; [by apply step_drop|].
  eapply run_cons; [apply step_close_results; by repeat constructor|].
  apply run_nil.
Qed.

(** C1 as stated fails. One worker crawls [blog] with [MaxDepth = 2]: the
    link ["https://example.com/b"] is found at depth 0, admitted by the
    visited set and listed in the published [Result]; the crawl ends with
    the stream closed, and no execution ever sends that link on the job
    queue. *)
Lemma discovered_link_never_pushed :
  let c := Examples.crawler (Examples.config 2 1 "") in
  Crawl c Examples.seed = Spawned (Examples.spawned 1)
  ∧ run c (Examples.spawned 1) Examples.blog_trace Examples.blog_end
  ∧ published Examples.blog_trace = [Examples.blog_result]
  ∧ "https://example.com/b" ∈ Links Examples.blog_result
  ∧ "https://example.com/b" ∈ seen Examples.blog_end
  ∧ Depth Examples.blog_result + 1 <= MaxDepth (config c)
  ∧ results_closed Examples.blog_end = true
  ∧ ∀ tr s, run c (Examples.spawned 1) tr s →
      "https://example.com/b" ∉ pushes tr.
Proof.
  intros c. split; [apply (Crawl_spawns 1)|]. split; [apply run_blog|].
  split; [done|]. split; [by left|]. split; [vm_compute; reflexivity|].
  split; [cbn; lia|]. split; [done|]. intros tr s Hrun Hin.
  pose proof (invariant_run _ _ _ _ _ (Crawl_spawns 1) Hrun) as Hinv.
  destruct (invariant_pushes _ _ _ _ Hinv) as [Hp|Hp]; rewrite Hp in Hin.
  - by apply elem_of_nil in Hin.
  - by apply list_elem_of_singleton in Hin.
Qed.

Lemma Crawl_pushes_only_seed_witness :
  pushes Examples.blog_trace = [Examples.seed]
  ∧ ∀ result, result ∈ published Examples.blog_trace →
      URL result = Examples.seed ∧ Depth result = 0.
Proof.
  destruct (Crawl_pushes_only_seed
              (Examples.crawler (Examples.config 2 1 "")) Examples.seed
              (Examples.spawned 1) Examples.blog_trace Examples.blog_end
              (Crawl_spawns 1) run_blog) as (_ & _ & _ & Hpub).
  split; [reflexivity|]. intros result Hin.
  destruct (Hpub result Hin) as (? & ? & _). by split.
Defined.

(** C3 as stated fails. A job is taken by the worker, cancellation fires,
    [crawlURL] returns a [Result] with the error of the context, and the
    worker takes the [ctx.Done()] case of its second [select]: the stream
    is closed without any [Result] for the dispatched job. *)
Lemma dispatched_job_without_result :
  let c := Examples.crawler (Examples.config 2 1 "") in
  Crawl c Examples.seed = Spawned (Examples.spawned 1)
  ∧ run c (Examples.spawned 1) Examples.interrupted_trace Examples.interrupted_end
  ∧ dispatched Examples.interrupted_trace = [Examples.seed]
  ∧ crawls Examples.interrupted_trace
    = [(Examples.seed, Examples.interrupted, Examples.interrupted_result)]
  ∧ published Examples.interrupted_trace = []
  ∧ results Examples.interrupted_end = []
  ∧ results_closed Examples.interrupted_end = true.
Proof.
  intros c. split; [apply (Crawl_spawns 1)|]. split; [apply run_interrupted|].
  repeat split.
Qed.

Lemma Crawl_publishes_at_most_once_witness :
  URL <$> published Examples.blog_trace = dispatched Examples.blog_trace.
Proof.
  destruct (Crawl_publishes_at_most_once
              (Examples.crawler (Examples.config 2 1 "")) Examples.seed
              (Examples.spawned 1) Examples.blog_trace Examples.blog_end
              (Crawl_spawns 1) run_blog) as (_ & _ & _ & Hall & _).
  apply Hall; [reflexivity|]. by repeat constructor.
Defined.



Lemma seed_not_marked_visited_witness :
  "https://example.com/a" ∈ Links Examples.loop_result.
Proof.
  pose (c := Examples.crawler (Examples.config 2 1 "")).
  pose (s := State ∅ false HasStream [] true [] false
               [InCrawlURL Examples.seed]).
  pose (s' := State {["https://example.com/a"; "https://example.com/b"]}
                false HasStream [] true [] false
                [AtResults Examples.loop_result]).
  assert (run c (Examples.spawned 1)
            [Push Examples.seed; Close; Dispatch 0 Examples.seed] s) as Hrun.
  { unfold Examples.spawned.
    eapply run_cons; [apply step_push; vm_compute; lia|].
    eapply run_cons; [apply step_close|].
    eapply run_cons; [by apply step_dispatch|]. apply run_nil. }
  assert (step c s (Crawled 0 Examples.seed Examples.loop Examples.loop_result) s')
    as Hstep.
  { eapply step_crawl; [done|done|]. vm_compute. reflexivity. }
  destruct (seed_not_marked_visited (Examples.config 2 1 "") Examples.mistral c
              Examples.seed (Examples.spawned 1) _ s 0%nat Examples.seed
              Examples.loop Examples.loop_result s'
              eq_refl (Crawl_spawns 1) Hrun Hstep) as (_ & _ & _ & _ & Hlisted).
  apply (Hlisted (Examples.page "example.com" "/a" "" : @NetUrl.URL GoUrl.lib)
           {| Parser.Text := "Hello world";
              Parser.Links := ["https://example.com/a/"; "https://example.com/b"] |}
           "https://example.com/a/").
  - split; try reflexivity. exists "text/html; charset=utf-8". by split.
  - by left.
  - vm_compute. reflexivity.
Defined.

(** C10 as stated fails for a crawl by a crawler that has crawled before.
    A first crawl of the page [loop] lists the link back to the seed and
    records its normal form. [Crawl] does not reset the visited set: when
    the same crawler crawls the seed again, the link back to the seed is
    refused by [LoadOrStore] and the [Result] lists no link. *)
Lemma link_to_seed_refused_by_used_crawler :
  let c := Examples.crawler (Examples.config 2 1 "") in
  let used : gset string :=
    {["https://example.com/a"; "https://example.com/b"]} in
  let c' := {| config := config c; visited := used;
               summarizer := summarizer c |} in
  let again := {| URL := Examples.seed; Content := "Hello world"; Links := [];
                  Depth := 0; Summary := "A greeting."; Error := None |} in
  crawlURL c Examples.loop (visited c) Examples.seed 0
  = (Examples.loop_result, used)
  ∧ Crawl c' Examples.seed
    = Spawned (State used false (SendSeed Examples.seed) [] false [] false
                 [AtJobs])
  ∧ run c' (State used false (SendSeed Examples.seed) [] false [] false [AtJobs])
      [Push Examples.seed; Close; Dispatch 0 Examples.seed;
       Crawled 0 Examples.seed Examples.loop again]
      (State used false HasStream [] true [] false [AtResults again])
  ∧ ParseWithPlaywright Examples.loop Examples.seed
    = inl {| Parser.Text := "Hello world";
             Parser.Links := ["https://example.com/a/"; "https://example.com/b"] |}
  ∧ cleanedLink (L := GoUrl.lib) (Examples.page "example.com" "/a" "")
      "https://example.com/a/" = Some Examples.seed
  ∧ Examples.seed ∉ Links again.
Proof.
  cbv zeta. split; [vm_compute; reflexivity|]. split.
  { unfold Crawl. change (Parse Examples.seed) with (GoUrl.Parse Examples.seed).
    by rewrite CrawlURLFacts.Parse_seed. }
  split.
  { eapply run_cons; [apply step_push; vm_compute; lia|].
    eapply run_cons; [apply step_close|].
    eapply run_cons; [by apply step_dispatch|].
    eapply run_cons.
    { eapply step_crawl; [done|done|]. vm_compute. reflexivity. }
    apply run_nil. }
  split; [reflexivity|]. split; [vm_compute; reflexivity|].
  cbn. by intros ?%elem_of_nil.
Qed.

End CrawlFacts.

(** * Further properties of the strings the code computes *)

Module StringFacts.
Import GoStrings SummarizerCost.

Lemma TrimRightFunc_fix f s :
  TrimRightFunc f (TrimRightFunc f s) = TrimRightFunc f s.
Proof.
  induction s as [|a s IH]; [done|]. cbn [TrimRightFunc].
  destruct (TrimRightFunc f s) as [|b r] eqn:Hr.
  - destruct (f a) eqn:Ha; [done|]. cbn [TrimRightFunc]. by rewrite Ha.
  - cbn [TrimRightFunc] in *. by rewrite IH.
Qed.

Lemma TrimRightFunc_length f s :
  (String.length (TrimRightFunc f s) ≤ String.length s)%nat.
Proof.
  induction s as [|a s IH]; [done|]. cbn [TrimRightFunc].
  destruct (TrimRightFunc f s) as [|b r].
  - destruct (f a); cbn; lia.
  - cbn in *. lia.
Qed.

Lemma TrimRightFunc_append f s c :
  f c = true → TrimRightFunc f (s +:+ String c "") = TrimRightFunc f s.
Proof.
  intros Hc. induction s as [|a s IH].
  - change ("" +:+ String c "") with (String c ""). cbn. by rewrite Hc.
  - change (String a s +:+ String c "") with (String a (s +:+ String c "")).
    cbn [TrimRightFunc]. by rewrite IH.
Qed.

Lemma append_length s1 s2 :
  String.length (s1 +:+ s2) = (String.length s1 + String.length s2)%nat.
Proof.
  induction s1 as [|a s1 IH]; [done|].
  change (String a s1 +:+ s2) with (String a (s1 +:+ s2)). cbn. by rewrite IH.
Qed.

Lemma isSpace_length x :
  isSpace x = true → (1 ≤ String.length x ≤ 3)%nat.
Proof.
  destruct x as [|a [|b [|c [|d x]]]]; unfold isSpace; try done;
    intros _; cbn [String.length]; lia.
Qed.

(** Either nothing is removed at the left, or a white-space rune is. *)
Lemma TrimLeftSpace_cases s :
  TrimLeftSpace s = s
  ∨ ∃ x t, s = x +:+ t ∧ isSpace x = true
       ∧ TrimLeftSpace s = TrimLeftSpace t.
Proof.
  destruct s as [|a s1]; [by left|]. cbn [TrimLeftSpace].
  destruct (isSpace (String a "")) eqn:H1.
  { right. by exists (String a ""), s1. }
  destruct s1 as [|b s2]; [by left|].
  destruct (isSpace (String a (String b ""))) eqn:H2.
  { right. by exists (String a (String b "")), s2. }
  destruct s2 as [|c s3]; [by left|].
  destruct (isSpace (String a (String b (String c "")))) eqn:H3; [|by left].
  right. by exists (String a (String b (String c ""))), s3.
Qed.

Lemma TrimLeftSpace_length s :
  (String.length (TrimLeftSpace s) ≤ String.length s)%nat.
Proof.
  assert (∀ n s, (String.length s ≤ n)%nat →
            (String.length (TrimLeftSpace s) ≤ String.length s)%nat) as Hall.
  { clear s. induction n as [|n IH]; intros s Hn.
    - destruct s; [done|cbn in Hn; lia].
    - destruct (TrimLeftSpace_cases s) as [->|(x & t & -> & Hx & ->)]; [done|].
      apply isSpace_length in Hx. rewrite append_length in *.
      specialize (IH t). lia. }
  by apply (Hall (String.length s)).
Qed.

Lemma TrimLeftSpace_1 a t :
  isSpace (String a "") = true →
  TrimLeftSpace (String a t) = TrimLeftSpace t.
Proof. intros Hx. cbn [TrimLeftSpace]. by rewrite Hx. Qed.

Lemma TrimLeftSpace_2 a b t :
  isSpace (String a (String b "")) = true →
  TrimLeftSpace (String a (String b t))
  = if isSpace (String a "") then TrimLeftSpace (String b t)
    else TrimLeftSpace t.
Proof.
  intros Hx.
  change (TrimLeftSpace (String a (String b t)))
    with (if isSpace (String a "") then TrimLeftSpace (String b t)
          else if isSpace (String a (String b "")) then TrimLeftSpace t
          else match t with
               | String c s3 =>
                   if isSpace (String a (String b (String c "")))
                   then TrimLeftSpace s3 else String a (String b t)
               | "" => String a (String b t)
               end).
  by rewrite Hx.
Qed.

Lemma TrimLeftSpace_3 a b c t :
  isSpace (String a (String b (String c ""))) = true →
  TrimLeftSpace (String a (String b (String c t)))
  = if isSpace (String a "") then TrimLeftSpace (String b (String c t))
    else if isSpace (String a (String b "")) then TrimLeftSpace (String c t)
    else TrimLeftSpace t.
Proof.
  intros Hx.
  change (TrimLeftSpace (String a (String b (String c t))))
    with (if isSpace (String a "") then TrimLeftSpace (String b (String c t))
          else if isSpace (String a (String b ""))
          then TrimLeftSpace (String c t)
          else if isSpace (String a (String b (String c "")))
          then TrimLeftSpace t else String a (String b (String c t))).
  by rewrite Hx.
Qed.

(** A string that starts with a white-space rune loses bytes. *)
Lemma TrimLeftSpace_strips x t :
  isSpace x = true → TrimLeftSpace (x +:+ t) ≠ x +:+ t.
Proof.
  intros Hx Hsame.
  assert (String.length (TrimLeftSpace (x +:+ t)) < String.length (x +:+ t))%nat
    as Hless; [|rewrite Hsame in Hless; lia].
  clear Hsame. pose proof (TrimLeftSpace_length t) as Ht.
  destruct x as [|a [|b [|c [|d x]]]]; try done.
  - change (String a "" +:+ t) with (String a t).
    rewrite (TrimLeftSpace_1 _ _ Hx). cbn [String.length]. lia.
  - change (String a (String b "") +:+ t) with (String a (String b t)).
    pose proof (TrimLeftSpace_length (String b t)) as Hbt.
    rewrite (TrimLeftSpace_2 _ _ _ Hx).
    destruct (isSpace (String a "")); cbn [String.length] in *; lia.
  - change (String a (String b (String c "")) +:+ t)
      with (String a (String b (String c t))).
    pose proof (TrimLeftSpace_length (String b (String c t))) as Hbt.
    pose proof (TrimLeftSpace_length (String c t)) as Hct.
    rewrite (TrimLeftSpace_3 _ _ _ _ Hx).
    destruct (isSpace (String a ""));
      [|destruct (isSpace (String a (String b "")))];
      cbn [String.length] in *; lia.
Qed.

Lemma TrimLeftSpace_fix s : TrimLeftSpace (TrimLeftSpace s) = TrimLeftSpace s.
Proof.
  assert (∀ n s, (String.length s ≤ n)%nat →
            TrimLeftSpace (TrimLeftSpace s) = TrimLeftSpace s) as Hall.
  { clear s. induction n as [|n IH]; intros s Hn.
    - destruct s; [done|cbn in Hn; lia].
    - destruct (TrimLeftSpace_cases s) as [Hs|(x & t & -> & Hx & ->)];
        [by rewrite !Hs|].
      apply isSpace_length in Hx. rewrite append_length in Hn.
      apply IH. lia. }
  by apply (Hall (String.length s)).
Qed.

Lemma TrimRightSpace_fix s : TrimRightSpace (TrimRightSpace s) = TrimRightSpace s.
Proof.
  induction s as [|a s IH]; [done|]. cbn [TrimRightSpace].
  destruct (isSpace (String a (TrimRightSpace s))) eqn:Ha; [done|].
  cbn [TrimRightSpace]. by rewrite IH, Ha.
Qed.

Lemma TrimRightSpace_prefix s : ∃ t, s = TrimRightSpace s +:+ t.
Proof.
  induction s as [|a s [t IH]]; [by exists ""|]. cbn [TrimRightSpace].
  destruct (isSpace (String a (TrimRightSpace s))).
  - by exists (String a s).
  - exists t. change (String a (TrimRightSpace s) +:+ t)
      with (String a (TrimRightSpace s +:+ t)). by rewrite <- IH.
Qed.

Lemma append_assoc (s1 s2 s3 : string) :
  (s1 +:+ s2) +:+ s3 = s1 +:+ (s2 +:+ s3).
Proof.
  induction s1 as [|a s1 IH]; [done|].
  change ((String a s1 +:+ s2) +:+ s3) with (String a ((s1 +:+ s2) +:+ s3)).
  by rewrite IH.
Qed.

(** What is left after trimming at the left does not start with white
    space, also after trimming at the right. *)
Lemma TrimLeftSpace_TrimRightSpace u :
  TrimLeftSpace u = u → TrimLeftSpace (TrimRightSpace u) = TrimRightSpace u.
Proof.
  intros Hu. destruct (TrimRightSpace_prefix u) as [t Ht].
  destruct (TrimLeftSpace_cases (TrimRightSpace u))
    as [|(x & t' & Hr & Hx & _)]; [done|].
  rewrite Hr, append_assoc in Ht. rewrite Ht in Hu.
  by destruct (TrimLeftSpace_strips _ _ Hx Hu).
Qed.

Lemma TrimSpace_fix s : TrimSpace (TrimSpace s) = TrimSpace s.
Proof.
  unfold TrimSpace.
  rewrite (TrimLeftSpace_TrimRightSpace _ (TrimLeftSpace_fix s)).
  apply TrimRightSpace_fix.
Qed.

Lemma TrimLeftSpace_blank s : TrimLeftSpace s = "" ↔ blank s = true.
Proof.
  assert (∀ n s, (String.length s ≤ n)%nat →
            (TrimLeftSpace s = "" ↔ blank s = true)) as Hall.
  { clear s. induction n as [|n IH]; intros s Hn.
    { destruct s; [done|cbn in Hn; lia]. }
    destruct s as [|a s1]; [done|]. cbn [String.length] in Hn.
    cbn [TrimLeftSpace blank].
    destruct (isSpace (String a "")); [apply IH; lia|].
    destruct s1 as [|b s2]; [done|]. cbn [String.length] in Hn.
    destruct (isSpace (String a (String b ""))); [apply IH; lia|].
    destruct s2 as [|c s3]; [done|]. cbn [String.length] in Hn.
    destruct (isSpace (String a (String b (String c ""))));
      [apply IH; lia|done]. }
  by apply (Hall (String.length s)).
Qed.

Lemma TrimSpace_blank s : TrimSpace s = "" ↔ blank s = true.
Proof.
  rewrite <- TrimLeftSpace_blank. unfold TrimSpace.
  pose proof (TrimLeftSpace_fix s) as Hu.
  destruct (TrimLeftSpace s) as [|a u] eqn:Hl; [done|].
  split; [|done]. cbn [TrimRightSpace].
  destruct (isSpace (String a (TrimRightSpace u))) eqn:Ha; [|done].
  intros _. destruct (TrimRightSpace_prefix u) as [t Ht].
  rewrite Ht in Hu.
  by destruct (TrimLeftSpace_strips (String a (TrimRightSpace u)) t Ha).
Qed.

(** No-break space (U+00A0), a tab, a line separator (U+2028) and an
    ideographic space (U+3000) go; a lone lead byte stays. *)
Example TrimSpace_unicode :
  TrimSpace (String "194" (String "160" (String "009"
              ("a b" +:+ String "226" (String "128" (String "168"
                 (String "227" (String "128" (String "128" " "))))))))) = "a b"
  ∧ TrimSpace (String "194" (String "160" "")) = ""
  ∧ TrimSpace (String " " (String "194" " ")) = String "194" "".
Proof. vm_compute. done. Qed.

Lemma HasPrefix_append s t : HasPrefix (s +:+ t) s = true.
Proof.
  induction s as [|a s IH]; [by destruct t|].
  change (String a s +:+ t) with (String a (s +:+ t)). cbn [HasPrefix].
  by rewrite Ascii.eqb_refl, IH.
Qed.

Lemma Contains_middle a s b : Contains (a +:+ s +:+ b) s = true.
Proof.
  induction a as [|x a IH].
  - change ("" +:+ s +:+ b) with (s +:+ b).
    destruct (s +:+ b) eqn:Hsb; cbn [Contains]; rewrite <- Hsb;
      by rewrite HasPrefix_append.
  - change (String x a +:+ s +:+ b) with (String x (a +:+ s +:+ b)).
    cbn [Contains]. rewrite IH. apply orb_true_r.
Qed.

Lemma ToLower_append s t : ToLower (s +:+ t) = ToLower s +:+ ToLower t.
Proof.
  induction s as [|a s IH]; [done|].
  change (String a s +:+ t) with (String a (s +:+ t)). cbn [ToLower].
  rewrite IH. done.
Qed.

End StringFacts.

(** * Further properties of the summarizer *)

Module SummarizerBounds.
Import GoStrings Summarizer SummarizerCost StringFacts.

(** The three ways the retry loop of [Summarize] can go, with the events
    of each. *)
Lemma attempts_cases srv req :
  (∃ resp, makeRequest srv 1 req = inl resp
     ∧ attempts srv req maxAttempts 1 = ([EvPost 1 req], inl (Response resp)))
  ∨ (∃ resp, makeRequest srv 2 req = inl resp
     ∧ attempts srv req maxAttempts 1
       = ([EvPost 1 req; EvSleep (1 * Second); EvPost 2 req],
          inl (Response resp)))
  ∨ (∃ r, attempts srv req maxAttempts 1
       = ([EvPost 1 req; EvSleep (1 * Second);
           EvPost 2 req; EvSleep (2 * Second); EvPost 3 req], r)
     ∧ match makeRequest srv 3 req with
       | inl resp => r = inl (Response resp)
       | inr err => r = inr (ErrAfterAttempts 3 err)
       end).
Proof.
  unfold maxAttempts. cbn [attempts].
  destruct (makeRequest srv 1 req) as [r1|e1] eqn:H1; [left; eauto|].
  destruct (makeRequest srv 2 req) as [r2|e2] eqn:H2.
  { right; left. exists r2. split; [done|]. cbn. done. }
  right; right.
  destruct (makeRequest srv 3 req) as [r3|e3] eqn:H3; cbn; eauto.
Qed.

Lemma Summarize_nonblank o srv text :
  TrimSpace text ≠ "" →
  Summarize o srv text =
    let '(tr, r) :=
      attempts srv (reqBody o (firstAndLast (TrimSpace text))) maxAttempts 1 in
    (tr, match r with
         | inr err => inr err
         | inl summary =>
             if decide (summary = "") then inr ErrEmptyResponse
             else inl summary
         end).
Proof.
  intros Ht. unfold Summarize. rewrite decide_False by done.
  destruct (attempts _ _ _ _) as [tr [summary|err]]; [|done].
  by destruct (decide (summary = "")).
Qed.

Lemma makeRequest_inl srv k req resp :
  makeRequest srv k req = inl resp → srv k req = Decoded resp ∧ Error resp = "".
Proof.
  unfold makeRequest. destruct (srv k req) as [e|e|r]; [done|done|].
  destruct (decide (Error r ≠ "")) as [Hne|He]; [done|].
  intros [= ->]. split; [done|]. by destruct (decide (Error resp = "")).
Qed.

Lemma firstAndLast_len t : len (firstAndLast t) <= maxLen + 5.
Proof.
  unfold firstAndLast. destruct (maxLen <? len t) eqn:Hlong.
  - apply Z.ltb_lt in Hlong. unfold len in *. rewrite !append_length.
    rewrite SummarizerFacts.length_take, SummarizerFacts.length_drop.
    unfold maxLen in *. change (String.length separator) with 5%nat.
    change (12000 / 2) with 6000. lia.
  - apply Z.ltb_ge in Hlong. lia.
Qed.

(** X1. A summary that [Summarize] returns without error is never empty,
    and it is, byte for byte, the [response] field of an answer that one of
    the at most three requests decoded with an empty [error] field. *)
Theorem Summarize_returns_an_answer o srv text tr summary :
  Summarize o srv text = (tr, inl summary) →
  summary ≠ ""
  ∧ ∃ k resp,
      (1 ≤ k ≤ 3)%nat
      ∧ srv k (reqBody o (firstAndLast (TrimSpace text))) = Decoded resp
      ∧ Error resp = "" ∧ Response resp = summary.
Proof.
  intros Hsum. destruct (decide (TrimSpace text = "")) as [Ht|Ht].
  { unfold Summarize in Hsum. by rewrite decide_True in Hsum. }
  rewrite (Summarize_nonblank _ _ _ Ht) in Hsum.
  set (req := reqBody o (firstAndLast (TrimSpace text))) in *.
  assert (∀ k resp, (1 ≤ k ≤ 3)%nat → makeRequest srv k req = inl resp →
            (if decide (Response resp = "")
             then inr ErrEmptyResponse else inl (Response resp))
            = (inl summary : string + error) →
            summary ≠ "" ∧ ∃ k resp, (1 ≤ k ≤ 3)%nat ∧ srv k req = Decoded resp
              ∧ Error resp = "" ∧ Response resp = summary) as Hok.
  { intros k resp Hk Hmake Hres.
    destruct (decide (Response resp = "")) as [|Hne]; [done|].
    injection Hres as <-. split; [done|].
    destruct (makeRequest_inl _ _ _ _ Hmake). eauto 10. }
  destruct (attempts_cases srv req)
    as [(resp & Hmake & Hrun)|[(resp & Hmake & Hrun)|(r & Hrun & Hlast)]];
    rewrite Hrun in Hsum.
  - injection Hsum as _ Hres. apply (Hok 1%nat resp); [lia|done|done].
  - injection Hsum as _ Hres. apply (Hok 2%nat resp); [lia|done|done].
  - injection Hsum as _ Hres.
    destruct (makeRequest srv 3 req) as [resp|err] eqn:Hmake; subst r; [|done].
    apply (Hok 3%nat resp); [lia|done|done].
Qed.

Lemma Summarize_returns_an_answer_witness :
  "short" ≠ ""
  ∧ ∃ k resp,
      (1 ≤ k ≤ 3)%nat
      ∧ Examples.flaky 3 "short" k
          (reqBody Examples.mistral (firstAndLast (TrimSpace " some page ")))
        = Decoded resp
      ∧ Error resp = "" ∧ Response resp = "short".
Proof.
  apply (Summarize_returns_an_answer Examples.mistral
           (Examples.flaky 3 "short") " some page "
           (rounds (reqBody Examples.mistral "some page") 3) "short").
  vm_compute. reflexivity.
Defined.

(** X2. Whatever the server does, one [Summarize] call sends at most three
    requests, numbered from 1, and sleeps between them only: nothing after
    one request, one second after two, three seconds after three. *)
Theorem Summarize_cost o srv text :
  let tr := (Summarize o srv text).1 in
  (length (posts tr) ≤ 3)%nat
  ∧ (posts tr).*1 = seq 1 (length (posts tr))
  ∧ slept tr = match length (posts tr) with
               | 3%nat => 3 * Second
               | 2%nat => 1 * Second
               | _ => 0
               end.
Proof.
  destruct (decide (TrimSpace text = "")) as [Ht|Ht].
  { unfold Summarize. rewrite decide_True by done. cbn. split; [lia|done]. }
  rewrite (Summarize_nonblank _ _ _ Ht).
  destruct (attempts_cases srv (reqBody o (firstAndLast (TrimSpace text))))
    as [(resp & _ & ->)|[(resp & _ & ->)|(r & -> & _)]];
    cbn; (split; [lia|done]).
Qed.

(** Every request of a call carries the same body. *)
Lemma Summarize_posts o srv text k q :
  EvPost k q ∈ (Summarize o srv text).1 →
  q = reqBody o (firstAndLast (TrimSpace text)).
Proof.
  destruct (decide (TrimSpace text = "")) as [Ht|Ht].
  { unfold Summarize. rewrite decide_True by done. cbn. by intros ?%elem_of_nil. }
  rewrite (Summarize_nonblank _ _ _ Ht).
  set (sent := firstAndLast (TrimSpace text)). intros Hin.
  destruct (attempts srv (reqBody o sent) maxAttempts 1) as [tr r] eqn:Hrun.
  by apply (SummarizerFacts.attempts_posts _ _ _ _ _ _ Hrun k q).
Qed.

(** X3. Every request of a [Summarize] call names the model of the
    summarizer, asks for no streaming and carries the prompt template
    around a text of at most 12005 bytes, however long the input is. *)
Theorem Summarize_request_bounded o srv text k q :
  EvPost k q ∈ (Summarize o srv text).1 →
  Model q = model o ∧ Stream q = false
  ∧ ∃ sent, Prompt q = prompt_head +:+ sent +:+ prompt_tail
      ∧ len sent <= 12005
      ∧ len (Prompt q) <= len prompt_head + 12005 + len prompt_tail.
Proof.
  intros ->%Summarize_posts. set (sent := firstAndLast (TrimSpace text)).
  split; [done|]. split; [done|]. exists sent.
  pose proof (firstAndLast_len (TrimSpace text)) as Hlen. fold sent in Hlen.
  unfold maxLen in Hlen. split; [done|]. split; [lia|].
  cbn [Prompt reqBody]. unfold prompt_of, len in *.
  rewrite !append_length. lia.
Qed.

Lemma Summarize_request_bounded_witness :
  Model (reqBody Examples.mistral "page") = model Examples.mistral
  ∧ Stream (reqBody Examples.mistral "page") = false
  ∧ ∃ sent, Prompt (reqBody Examples.mistral "page")
            = prompt_head +:+ sent +:+ prompt_tail
      ∧ len sent <= 12005
      ∧ len (Prompt (reqBody Examples.mistral "page"))
        <= len prompt_head + 12005 + len prompt_tail.
Proof.
  apply (Summarize_request_bounded Examples.mistral Examples.down "page" 1).
  vm_compute. constructor.
Defined.

(** X4. [Summarize] looks at its input through [strings.TrimSpace] only:
    trimming the text beforehand changes neither the requests nor the
    answer. *)
Theorem Summarize_trimmed o srv text :
  Summarize o srv (TrimSpace text) = Summarize o srv text.
Proof. unfold Summarize. by rewrite TrimSpace_fix. Qed.

(** X5. [Summarize] sends no request exactly when every byte of the input
    is white space, and it then fails with "empty text". *)
Theorem Summarize_blank o srv text :
  ((Summarize o srv text).1 = [] ↔ blank text = true)
  ∧ (blank text = true → Summarize o srv text = ([], inr ErrEmptyText)).
Proof.
  rewrite <- TrimSpace_blank. split; [split|].
  - intros Hnil. destruct (decide (TrimSpace text = "")) as [|Ht]; [done|].
    rewrite (Summarize_nonblank _ _ _ Ht) in Hnil.
    destruct (SummarizerFacts.attempts_head srv
                (reqBody o (firstAndLast (TrimSpace text))) 2 1)
      as (tr & r & Hrun).
    change maxAttempts with 3%nat in Hnil. by rewrite Hrun in Hnil.
  - intros Ht. unfold Summarize. by rewrite decide_True.
  - intros Ht. unfold Summarize. by rewrite decide_True.
Qed.

(** X6. The factory creates a summarizer for the type ["ollama"] only, and
    every request such a summarizer sends names a model: the configured
    one, or ["mistral"] when none is configured. *)
Theorem CreateSummarizer_names_a_model cfg o srv text k q :
  Factory.CreateSummarizer (Factory.NewFactory cfg) = inl o →
  EvPost k q ∈ (Summarize o srv text).1 →
  Factory.Type' cfg = "ollama"
  ∧ baseURL o = Factory.OllamaURL cfg
  ∧ Model q ≠ ""
  ∧ Model q = (if decide (Factory.OllamaModel cfg = "") then "mistral"
               else Factory.OllamaModel cfg).
Proof.
  unfold Factory.CreateSummarizer, Factory.NewFactory. cbn.
  destruct (decide (Factory.Type' cfg = Factory.TypeOllama)) as [Hty|]; [|done].
  intros [= <-] ->%Summarize_posts.
  split; [done|]. split; [done|]. cbn.
  destruct (decide (Factory.OllamaModel cfg = "")); done.
Qed.

Lemma CreateSummarizer_names_a_model_witness :
  "ollama" = "ollama"
  ∧ baseURL Examples.mistral = "http://localhost:11434"
  ∧ Model (reqBody Examples.mistral "page") ≠ ""
  ∧ Model (reqBody Examples.mistral "page") = "mistral".
Proof.
  apply (CreateSummarizer_names_a_model
           {| Factory.Type' := "ollama";
              Factory.OllamaURL := "http://localhost:11434";
              Factory.OllamaModel := "" |}
           Examples.mistral Examples.down "page" 1).
  - vm_compute. reflexivity.
  - vm_compute. constructor.
Defined.

End SummarizerBounds.

(** * Further properties of [crawlURL] *)

Module CrawlURLResults.
Import GoStrings NetUrl Crawler StringFacts.

Section WithNetUrl.
Context {L : Lib}.

(** The links the loop appends are new to the visited set and distinct. *)
Lemma collectLinks_fresh base v links found :
  NoDup links → (∀ x, x ∈ links → x ∈ v) →
  NoDup (collectLinks base v links found).2
  ∧ ∀ x, x ∈ (collectLinks base v links found).2 → x ∈ links ∨ x ∉ v.
Proof.
  revert v links. induction found as [|link found IH]; intros v links Hnd Hin.
  { cbn. auto. }
  cbn [collectLinks]. destruct (cleanedLink base link) as [cleaned|]; [|by apply IH].
  unfold LoadOrStore. destruct (bool_decide (cleaned ∈ v)) eqn:Hseen.
  - destruct (IH ({[cleaned]} ∪ v) links Hnd) as [Hnd' Hout].
    { intros x Hx. apply elem_of_union_r. by apply Hin. }
    split; [done|]. intros x Hx. destruct (Hout x Hx) as [|Hnew]; [by left|].
    right. intros Hv. apply Hnew. by apply elem_of_union_r.
  - apply bool_decide_eq_false in Hseen.
    destruct (IH ({[cleaned]} ∪ v) (links ++ [cleaned])) as [Hnd' Hout].
    { apply NoDup_app. split; [done|]. split; [|apply NoDup_singleton].
      intros x Hx ->%list_elem_of_singleton. apply Hseen. by apply Hin. }
    { intros x [Hx| ->%list_elem_of_singleton]%elem_of_app.
      - apply elem_of_union_r. by apply Hin.
      - apply elem_of_union_l. by apply elem_of_singleton. }
    split; [done|]. intros x Hx.
    destruct (Hout x Hx) as [[ | ->%list_elem_of_singleton]%elem_of_app|Hnew].
    + by left.
    + by right.
    + right. intros Hv. apply Hnew. by apply elem_of_union_r.
Qed.

(** Every link the loop appends is the normal form of a link of the
    page. *)
Lemma collectLinks_origin base v links found x :
  x ∈ (collectLinks base v links found).2 →
  x ∈ links ∨ ∃ link, link ∈ found ∧ cleanedLink base link = Some x.
Proof.
  revert v links. induction found as [|link found IH]; intros v links Hx.
  { by left. }
  cbn [collectLinks] in Hx.
  destruct (cleanedLink base link) as [cleaned|] eqn:Hclean.
  - unfold LoadOrStore in Hx. apply IH in Hx as [Hx|(link' & Hin & Hc)].
    + destruct (bool_decide (cleaned ∈ v)); [by left|].
      apply elem_of_app in Hx as [ | ->%list_elem_of_singleton]; [by left|].
      right. exists link. split; [left|done].
    + right. exists link'. split; [by right|done].
  - apply IH in Hx as [Hx|(link' & Hin & Hc)]; [by left|].
    right. exists link'. split; [by right|done].
Qed.

(** The normal form of every link of the page is in the visited set the
    loop leaves. *)
Lemma collectLinks_records base v links found link cleaned :
  link ∈ found → cleanedLink base link = Some cleaned →
  cleaned ∈ (collectLinks base v links found).1.
Proof.
  revert v links. induction found as [|link' found IH]; intros v links Hin Hc.
  { by apply elem_of_nil in Hin. }
  cbn [collectLinks]. apply elem_of_cons in Hin as [<-|Hin].
  - rewrite Hc. unfold LoadOrStore.
    apply (CrawlFacts.collectLinks_grows base). apply elem_of_union_l.
    by apply elem_of_singleton.
  - destruct (cleanedLink base link'); [unfold LoadOrStore|]; by apply IH.
Qed.

(** On a page whose links are all visited the loop changes nothing. *)
Lemma collectLinks_known base v links found :
  (∀ link cleaned, link ∈ found → cleanedLink base link = Some cleaned →
     cleaned ∈ v) →
  collectLinks base v links found = (v, links).
Proof.
  revert links. induction found as [|link found IH]; intros links Hall; [done|].
  cbn [collectLinks]. destruct (cleanedLink base link) as [cleaned|] eqn:Hc.
  - assert (cleaned ∈ v) as Hv by (apply (Hall link); [left|done]).
    unfold LoadOrStore. rewrite bool_decide_eq_true_2 by done.
    replace ({[cleaned]} ∪ v) with v.
    + apply IH. intros link' c' Hin. apply Hall. by right.
    + apply set_eq. intros x. rewrite elem_of_union, elem_of_singleton.
      split; [tauto|]. by intros [->|].
  - apply IH. intros link' c' Hin. apply Hall. by right.
Qed.

(** A string cut by [strings.TrimRight(s, "/")] does not end in a slash. *)
Lemma TrimRight_slash s t : TrimRight s "/" ≠ t +:+ "/".
Proof.
  intros Heq.
  assert (TrimRightFunc (λ a, mem a "/") (TrimRight s "/") = TrimRight s "/")
    as Hfix by apply TrimRightFunc_fix.
  rewrite Heq in Hfix.
  rewrite (TrimRightFunc_append (λ a, mem a "/") t "/"%char eq_refl) in Hfix.
  pose proof (TrimRightFunc_length (λ a, mem a "/") t) as Hlen.
  rewrite Hfix, append_length in Hlen. cbn in Hlen. lia.
Qed.

(** How a call of [crawlURL] ends: at the depth guard, with an error that
    tells which step failed, or past the renderer. *)
Lemma crawlURL_outcome c w v urlStr depth :
  (depth >= MaxDepth (config c)
   ∧ crawlURL c w v urlStr depth
     = ({| URL := urlStr; Content := ""; Links := []; Depth := depth;
           Summary := ""; Error := None |}, v))
  ∨ (∃ err,
       depth < MaxDepth (config c)
       ∧ crawlURL c w v urlStr depth = (failed urlStr depth err, v)
       ∧ match err with
         | ErrContext e => limiter w = CtxDone e
         | ErrCreateRequest cause =>
             limiter w = Tick ∧ NewRequest w urlStr = Some cause
         | ErrFetch cause =>
             limiter w = Tick ∧ NewRequest w urlStr = None
             ∧ Do w urlStr = inr cause
         | ErrStatus code =>
             ∃ resp, Do w urlStr = inl resp
               ∧ StatusCode resp = code ∧ code ≠ 200
         | ErrNonAllowedHost final =>
             ∃ resp, Do w urlStr = inl resp ∧ StatusCode resp = 200
               ∧ final = URLString (RequestURL resp)
               ∧ isAllowedHost (config c) final = false
         | ErrNonHTML contentType =>
             ∃ resp, Do w urlStr = inl resp ∧ StatusCode resp = 200
               ∧ isAllowedHost (config c) (URLString (RequestURL resp)) = true
               ∧ contentType = ContentType resp
               ∧ Contains (ToLower contentType) "text/html" = false
         | ErrParseContent cause =>
             ∃ resp, Do w urlStr = inl resp ∧ StatusCode resp = 200
               ∧ isAllowedHost (config c) (URLString (RequestURL resp)) = true
               ∧ Contains (ToLower (ContentType resp)) "text/html" = true
               ∧ ParseWithPlaywright w urlStr = inr cause
         | ErrInvalidSeed | ErrSeedNotAbsolute => False
         end)
  ∨ (∃ base page, rendered c w urlStr depth base page).
Proof.
  unfold crawlURL.
  destruct (bool_decide (depth >= MaxDepth (config c))) eqn:Hdepth.
  { left. by apply bool_decide_eq_true in Hdepth. }
  apply bool_decide_eq_false in Hdepth. right.
  assert (depth < MaxDepth (config c)) as Hlt by lia.
  destruct (limiter w) as [e|] eqn:Htick.
  { left. by exists (ErrContext e). }
  destruct (NewRequest w urlStr) as [cause|] eqn:Hreq.
  { left. by exists (ErrCreateRequest cause). }
  destruct (Do w urlStr) as [resp|cause] eqn:Hdo.
  2: { left. by exists (ErrFetch cause). }
  destruct (bool_decide (StatusCode resp ≠ 200)) eqn:Hstatus.
  { apply bool_decide_eq_true in Hstatus. left.
    exists (ErrStatus (StatusCode resp)).
    split; [done|]. split; [done|]. by exists resp. }
  apply bool_decide_eq_false in Hstatus.
  assert (StatusCode resp = 200) as H200 by lia.
  destruct (isAllowedHost (config c) (URLString (RequestURL resp))) eqn:Hhost;
    cbn [negb].
  2: { left. exists (ErrNonAllowedHost (URLString (RequestURL resp))).
       split; [done|]. split; [done|]. by exists resp. }
  destruct (Contains (ToLower (ContentType resp)) "text/html") eqn:Hct;
    cbn [negb].
  2: { left. exists (ErrNonHTML (ContentType resp)).
       split; [done|]. split; [done|]. by exists resp. }
  destruct (ParseWithPlaywright w urlStr) as [page|cause] eqn:Hpage.
  2: { left. exists (ErrParseContent cause).
       split; [done|]. split; [done|]. by exists resp. }
  right. exists (RequestURL resp), page. split; try done.
  exists (ContentType resp). split; [|done].
  destruct resp as [sc ct base]. cbn in *. by subst sc.
Qed.

(** X7. A [Result] with an error carries nothing else: no content, no
    link, no summary, and the visited set is as it was before the call.
    The error tells how far the call got: the status is checked before the
    host, the host before the content type, and the page is rendered only
    after all three. *)
Theorem crawlURL_error c w v urlStr depth result v' err :
  crawlURL c w v urlStr depth = (result, v') →
  Error result = Some err →
  result = failed urlStr depth err ∧ v' = v
  ∧ depth < MaxDepth (config c)
  ∧ match err with
    | ErrContext e => limiter w = CtxDone e
    | ErrCreateRequest cause => NewRequest w urlStr = Some cause
    | ErrFetch cause => Do w urlStr = inr cause
    | ErrStatus code =>
        ∃ resp, Do w urlStr = inl resp ∧ StatusCode resp = code ∧ code ≠ 200
    | ErrNonAllowedHost final =>
        ∃ resp, Do w urlStr = inl resp ∧ StatusCode resp = 200
          ∧ final = URLString (RequestURL resp)
          ∧ isAllowedHost (config c) final = false
    | ErrNonHTML contentType =>
        ∃ resp, Do w urlStr = inl resp ∧ StatusCode resp = 200
          ∧ isAllowedHost (config c) (URLString (RequestURL resp)) = true
          ∧ contentType = ContentType resp
          ∧ Contains (ToLower contentType) "text/html" = false
    | ErrParseContent cause =>
        ∃ resp, Do w urlStr = inl resp ∧ StatusCode resp = 200
          ∧ isAllowedHost (config c) (URLString (RequestURL resp)) = true
          ∧ Contains (ToLower (ContentType resp)) "text/html" = true
          ∧ ParseWithPlaywright w urlStr = inr cause
    | ErrInvalidSeed | ErrSeedNotAbsolute => False
    end.
Proof.
  intros Hcrawl Herr.
  destruct (crawlURL_outcome c w v urlStr depth)
    as [[_ Hrun]|[(err' & Hlt & Hrun & Hwhy)|(base & page & Hpage)]].
  - rewrite Hrun in Hcrawl. injection Hcrawl as <- <-. done.
  - rewrite Hrun in Hcrawl. injection Hcrawl as <- <-.
    injection Herr as <-. split; [done|]. split; [done|]. split; [done|].
    destruct err'; try done; tauto.
  - rewrite (CrawlURLFacts.crawlURL_rendered _ _ v _ _ _ _ Hpage) in Hcrawl.
    injection Hcrawl as <- <-. done.
Qed.

(** X8. The links of a [Result] are pairwise distinct, none of them was in
    the visited set before the call, and the call adds exactly them to the
    visited set. *)
Theorem crawlURL_links_fresh c w v urlStr depth result v' :
  crawlURL c w v urlStr depth = (result, v') →
  NoDup (Links result)
  ∧ (∀ link, link ∈ Links result → link ∉ v)
  ∧ v' = v ∪ list_to_set (Links result).
Proof.
  intros Hcrawl. split; [|split]; [| |by apply (CrawlFacts.crawlURL_seen c w _ urlStr depth)].
  - destruct (crawlURL_outcome c w v urlStr depth)
      as [[_ Hrun]|[(err' & _ & Hrun & _)|(base & page & Hpage)]].
    + rewrite Hrun in Hcrawl. injection Hcrawl as <- <-. apply NoDup_nil_2.
    + rewrite Hrun in Hcrawl. injection Hcrawl as <- <-. apply NoDup_nil_2.
    + rewrite (CrawlURLFacts.crawlURL_rendered _ _ v _ _ _ _ Hpage) in Hcrawl.
      injection Hcrawl as <- <-. cbn [Links].
      apply collectLinks_fresh; [apply NoDup_nil_2|]. by intros x ?%elem_of_nil.
  - intros link Hlink.
    destruct (crawlURL_outcome c w v urlStr depth)
      as [[_ Hrun]|[(err' & _ & Hrun & _)|(base & page & Hpage)]].
    + rewrite Hrun in Hcrawl. injection Hcrawl as <- <-.
      by apply elem_of_nil in Hlink.
    + rewrite Hrun in Hcrawl. injection Hcrawl as <- <-.
      by apply elem_of_nil in Hlink.
    + rewrite (CrawlURLFacts.crawlURL_rendered _ _ v _ _ _ _ Hpage) in Hcrawl.
      injection Hcrawl as <- <-. cbn [Links] in Hlink.
      destruct (collectLinks_fresh base v [] (Parser.Links page)) as [_ Hnew].
      { apply NoDup_nil_2. } { by intros x ?%elem_of_nil. }
      destruct (Hnew link Hlink) as [?%elem_of_nil|]; done.
Qed.

(** X9. Crawling the same page again, in the same surroundings and with
    the visited set the first call left, gives the same [Result] without
    any link, and leaves the visited set as it is. *)
Theorem crawlURL_again c w v urlStr depth result v' :
  crawlURL c w v urlStr depth = (result, v') →
  crawlURL c w v' urlStr depth =
    ({| URL := URL result; Content := Content result; Links := [];
        Depth := Depth result; Summary := Summary result;
        Error := Error result |}, v').
Proof.
  intros Hcrawl.
  destruct (crawlURL_outcome c w v urlStr depth)
    as [[Hdepth Hrun]|[(err' & Hlt & Hrun & Hwhy)|(base & page & Hpage)]].
  - rewrite Hrun in Hcrawl. injection Hcrawl as <- <-. by rewrite Hrun.
  - rewrite Hrun in Hcrawl. injection Hcrawl as <- <-. by rewrite Hrun.
  - rewrite (CrawlURLFacts.crawlURL_rendered _ _ v _ _ _ _ Hpage) in Hcrawl.
    injection Hcrawl as <- <-.
    rewrite (CrawlURLFacts.crawlURL_rendered _ _ _ _ _ _ _ Hpage). cbn.
    rewrite collectLinks_known; [done|].
    intros link cleaned Hin Hc. by apply (collectLinks_records _ _ _ _ link).
Qed.

(** X10. No link of a [Result] ends in a slash: each is the normal form
    [strings.TrimRight(parsedLink.String(), "/")] of a link of the rendered
    page, and trimming it again changes nothing. *)
Theorem crawlURL_links_trimmed c w v urlStr depth result v' link :
  crawlURL c w v urlStr depth = (result, v') →
  link ∈ Links result →
  (∀ s, link ≠ s +:+ "/")
  ∧ TrimRight link "/" = link
  ∧ ∃ base page found,
      rendered c w urlStr depth base page
      ∧ found ∈ Parser.Links page ∧ cleanedLink base found = Some link.
Proof.
  intros Hcrawl Hlink.
  destruct (crawlURL_outcome c w v urlStr depth)
    as [[_ Hrun]|[(err' & _ & Hrun & _)|(base & page & Hpage)]].
  - rewrite Hrun in Hcrawl. injection Hcrawl as <- <-.
    by apply elem_of_nil in Hlink.
  - rewrite Hrun in Hcrawl. injection Hcrawl as <- <-.
    by apply elem_of_nil in Hlink.
  - rewrite (CrawlURLFacts.crawlURL_rendered _ _ v _ _ _ _ Hpage) in Hcrawl.
    injection Hcrawl as <- <-. cbn [Links] in Hlink.
    apply collectLinks_origin in Hlink as [?%elem_of_nil|(found & Hin & Hc)];
      [done|].
    assert (∃ s, link = TrimRight s "/") as [s ->].
    { unfold cleanedLink in Hc.
      destruct (parsedLink base found) as [u|]; [|done].
      injection Hc as <-. eauto. }
    split; [intros t; apply TrimRight_slash|].
    split; [apply TrimRightFunc_fix|]. by exists base, page, found.
Qed.

(** X11. A [Result] has a summary only if it has no error and its content
    is not blank, and the summary is what [Summarize] returned for that
    content. *)
Theorem crawlURL_summary c w v urlStr depth result v' :
  crawlURL c w v urlStr depth = (result, v') →
  Summary result ≠ "" →
  Error result = None
  ∧ SummarizerCost.blank (Content result) = false
  ∧ ∃ tr, Summarizer.Summarize (summarizer c) (ollama w) (Content result)
          = (tr, inl (Summary result)).
Proof.
  intros Hcrawl Hsum.
  destruct (crawlURL_outcome c w v urlStr depth)
    as [[_ Hrun]|[(err' & _ & Hrun & _)|(base & page & Hpage)]].
  - rewrite Hrun in Hcrawl. by injection Hcrawl as <- <-.
  - rewrite Hrun in Hcrawl. by injection Hcrawl as <- <-.
  - rewrite (CrawlURLFacts.crawlURL_rendered _ _ v _ _ _ _ Hpage) in Hcrawl.
    injection Hcrawl as <- <-. cbn in *.
    destruct (decide (Parser.Text page ≠ "")) as [Htext|]; [|done].
    destruct (Summarizer.Summarize (summarizer c) (ollama w) (Parser.Text page))
      as [tr [summary|err]] eqn:Hcall; [|done].
    split; [done|]. split; [|by exists tr].
    destruct (SummarizerCost.blank (Parser.Text page)) eqn:Hblank; [|done].
    apply TrimSpace_blank in Hblank. unfold Summarizer.Summarize in Hcall.
    by rewrite decide_True in Hcall.
Qed.

(** X12. The host filter is a substring test on the host of the final
    location: any host that contains the configured name, at its start, at
    its end or in the middle, is allowed; with a filter set, a location
    that [url.Parse] rejects is not. *)
Theorem isAllowedHost_substring cfg urlStr :
  (∀ parsedURL before after,
     Parse urlStr = Some parsedURL →
     Host parsedURL = before +:+ AllowedHost cfg +:+ after →
     isAllowedHost cfg urlStr = true)
  ∧ (AllowedHost cfg ≠ "" → Parse urlStr = None →
     isAllowedHost cfg urlStr = false).
Proof.
  unfold isAllowedHost. split.
  - intros u a b Hparse Hhost. destruct (decide (AllowedHost cfg = "")); [done|].
    rewrite Hparse, Hhost. apply Contains_middle.
  - intros Hset Hparse. rewrite decide_False by done. by rewrite Hparse.
Qed.

End WithNetUrl.

Lemma crawlURL_error_witness :
  isAllowedHost (L := GoUrl.lib)
    (Examples.config 1 5 "example.com") "https://other.com/landing" = false.
Proof.
  destruct (crawlURL_error
              (Examples.crawler (Examples.config 1 5 "example.com"))
              Examples.elsewhere ∅ Examples.seed 0
              (failed Examples.seed 0
                 (ErrNonAllowedHost "https://other.com/landing")) ∅
              (ErrNonAllowedHost "https://other.com/landing"))
    as (_ & _ & _ & resp & _ & _ & _ & Hhost).
  - vm_compute. reflexivity.
  - reflexivity.
  - exact Hhost.
Defined.

Lemma crawlURL_links_fresh_witness :
  NoDup (Links Examples.blog_result)
  ∧ (∀ link, link ∈ Links Examples.blog_result → link ∉ (∅ : gset string))
  ∧ ({["https://example.com/b"]} : gset string)
    = ∅ ∪ list_to_set (Links Examples.blog_result).
Proof.
  apply (crawlURL_links_fresh (Examples.crawler (Examples.config 1 5 ""))
           Examples.blog ∅ Examples.seed 0).
  vm_compute. reflexivity.
Defined.

Lemma crawlURL_again_witness :
  crawlURL (Examples.crawler (Examples.config 1 5 "")) Examples.blog
    {["https://example.com/b"]} Examples.seed 0
  = ({| URL := Examples.seed; Content := "Hello world"; Links := [];
        Depth := 0; Summary := "A greeting."; Error := None |},
     {["https://example.com/b"]}).
Proof.
  apply (crawlURL_again (Examples.crawler (Examples.config 1 5 ""))
           Examples.blog ∅ Examples.seed 0 Examples.blog_result).
  vm_compute. reflexivity.
Defined.

Lemma crawlURL_links_trimmed_witness :
  (∀ s, "https://example.com/b" ≠ s +:+ "/")
  ∧ TrimRight "https://example.com/b" "/" = "https://example.com/b"
  ∧ ∃ base page found,
      rendered (L := GoUrl.lib) (Examples.crawler (Examples.config 1 5 ""))
        Examples.blog Examples.seed 0 base page
      ∧ found ∈ Parser.Links page
      ∧ cleanedLink base found = Some "https://example.com/b".
Proof.
  apply (crawlURL_links_trimmed (Examples.crawler (Examples.config 1 5 ""))
           Examples.blog ∅ Examples.seed 0 Examples.blog_result
           {["https://example.com/b"]}).
  - vm_compute. reflexivity.
  - vm_compute. constructor.
Defined.

Lemma crawlURL_summary_witness :
  Error Examples.blog_result = None
  ∧ SummarizerCost.blank (Content Examples.blog_result) = false
  ∧ ∃ tr, Summarizer.Summarize Examples.mistral (Examples.steady "A greeting.")
            (Content Examples.blog_result)
          = (tr, inl (Summary Examples.blog_result)).
Proof.
  apply (crawlURL_summary (Examples.crawler (Examples.config 1 5 ""))
           Examples.blog ∅ Examples.seed 0 Examples.blog_result
           {["https://example.com/b"]}).
  - vm_compute. reflexivity.
  - vm_compute. discriminate.
Defined.

Lemma isAllowedHost_substring_witness :
  isAllowedHost (L := GoUrl.lib) (Examples.config 1 5 "example.com")
    "https://example.com.evil.org/x" = true.
Proof.
  apply (proj1 (isAllowedHost_substring (L := GoUrl.lib)
                  (Examples.config 1 5 "example.com")
                  "https://example.com.evil.org/x")
           (Examples.page "example.com.evil.org" "/x" "") "" ".evil.org").
  - vm_compute. reflexivity.
  - vm_compute. reflexivity.
Defined.

End CrawlURLResults.

(** * Further properties of [Crawl] *)

Module CrawlProgress.
Import GoStrings NetUrl Crawler.

Section WithNetUrl.
Context {L : Lib}.

Lemma crawlURL_guarded c w v urlStr depth :
  depth >= MaxDepth (config c) →
  crawlURL c w v urlStr depth =
    ({| URL := urlStr; Content := ""; Links := []; Depth := depth;
        Summary := ""; Error := None |}, v).
Proof. intros Hdepth. unfold crawlURL. by rewrite bool_decide_eq_true_2. Qed.

Lemma published_short c seedURL tr s :
  invariant c seedURL tr s → (length (published tr) ≤ 1)%nat.
Proof.
  intros Hinv. destruct (CrawlFacts.invariant_history _ _ _ _ Hinv)
    as (_ & _ & [->|(w & result & v & -> & _)]); cbn; lia.
Qed.

(** X13. [Crawl] never sends on a closed channel: a worker that holds a
    [Result] finds the stream open, and once the queue is closed nothing
    is sent on it. Neither buffer ever holds more than one value. *)
Theorem Crawl_channels_safe c seedURL s0 tr s :
  Crawl c seedURL = Spawned s0 → run c s0 tr s →
  (∀ i result, workers s !! i = Some (AtResults result) →
     results_closed s = false)
  ∧ (jobs_closed s = true → ∀ url s', ¬ step c s (Push url) s')
  ∧ (length (jobs s) ≤ 1)%nat ∧ (length (results s) ≤ 1)%nat.
Proof.
  intros Hstart Hrun.
  pose proof (CrawlFacts.invariant_run _ _ _ _ _ Hstart Hrun) as Hinv.
  pose proof (published_short _ _ _ _ Hinv) as Hshort.
  pose proof (CrawlFacts.invariant_pushes _ _ _ _ Hinv) as Hpushes.
  destruct Hinv as [Hmain Hjobs Hres Hws Hclosed Hphase].
  split; [|split; [|split]].
  - intros i result Hi. destruct (results_closed s) eqn:Hrc; [|done].
    by pose proof (CrawlFacts.all_returned_lookup _ _ _ (Hclosed eq_refl) Hi).
  - intros Hjc url s' Hstep. inversion Hstep; subst. cbn in *.
    destruct Hmain as (_ & _ & Hopen). congruence.
  - assert (length (dispatched tr ++ jobs s) ≤ 1)%nat as Hlen
      by (rewrite Hjobs; destruct Hpushes as [-> | ->]; cbn; lia).
    rewrite length_app in Hlen. lia.
  - rewrite Hres, length_app in Hshort. lia.
Qed.

(** X14. One call of [Crawl] calls [crawlURL] at most once and puts at most
    one [Result] on the stream: the one [crawlURL] computed for the seed at
    depth 0 from the visited set the crawler started with. The stream
    neither loses nor repeats nor reorders what is sent on it. *)
Theorem Crawl_single_result c seedURL s0 tr s :
  Crawl c seedURL = Spawned s0 → run c s0 tr s →
  (length (crawls tr) ≤ 1)%nat
  ∧ (length (published tr) ≤ 1)%nat
  ∧ published tr = consumed tr ++ results s
  ∧ ∀ result, result ∈ published tr →
      ∃ w, crawls tr = [(seedURL, w, result)]
        ∧ crawlURL c w (visited c) seedURL 0 = (result, seen s).
Proof.
  intros Hstart Hrun.
  pose proof (CrawlFacts.invariant_run _ _ _ _ _ Hstart Hrun) as Hinv.
  pose proof (published_short _ _ _ _ Hinv) as Hshort.
  destruct Hinv as [_ _ Hres _ _ Hphase].
  split; [|split; [done|split; [done|]]].
  - destruct Hphase as [_ -> _ _ _ _|? _ -> _ _ _ _|? ? ? _ -> _ _ _ _
                        |? ? _ -> _ _ _]; cbn; lia.
  - intros result Hin.
    destruct Hphase as [_ _ Hp _ _ _|? _ _ Hp _ _ _|? ? ? _ _ Hp _ _ _
                        |w result' _ Hc Hcrawl _ Hend];
      try (rewrite Hp in Hin; by apply elem_of_nil in Hin).
    destruct Hend as [[Hp _]|(Hp & _)]; rewrite Hp in Hin;
      [|by apply elem_of_nil in Hin].
    apply list_elem_of_singleton in Hin as ->. by exists w.
Qed.

(** X15. With [MaxDepth <= 0] a crawl fetches nothing: [Crawl] runs every
    job at depth 0, so every [Result] is the empty one for the seed, and
    the visited set never changes. *)
Theorem Crawl_depth_zero c seedURL s0 tr s :
  MaxDepth (config c) <= 0 →
  Crawl c seedURL = Spawned s0 → run c s0 tr s →
  seen s = visited c
  ∧ ∀ url w result, (url, w, result) ∈ crawls tr →
      result = {| URL := seedURL; Content := ""; Links := []; Depth := 0;
                  Summary := ""; Error := None |}.
Proof.
  intros Hdepth Hstart Hrun.
  pose proof (CrawlFacts.invariant_run _ _ _ _ _ Hstart Hrun) as Hinv.
  destruct Hinv as [_ _ _ _ _ Hphase].
  assert (∀ w result v, crawlURL c w (visited c) seedURL 0 = (result, v) →
            v = visited c
            ∧ result = {| URL := seedURL; Content := ""; Links := [];
                          Depth := 0; Summary := ""; Error := None |}) as Hnone.
  { intros w result v. rewrite crawlURL_guarded by lia. by intros [= <- <-]. }
  destruct Hphase as [_ Hc _ _ _ Hseen|? _ Hc _ _ _ Hseen
                      |? w result _ Hc _ _ _ Hcrawl
                      |w result _ Hc Hcrawl _ _].
  - split; [done|]. intros ? ? ? Hin. rewrite Hc in Hin.
    by apply elem_of_nil in Hin.
  - split; [done|]. intros ? ? ? Hin. rewrite Hc in Hin.
    by apply elem_of_nil in Hin.
  - destruct (Hnone _ _ _ Hcrawl) as [Hv Hr]. split; [done|].
    intros ? ? ? Hin. rewrite Hc in Hin.
    apply list_elem_of_singleton in Hin. by injection Hin as -> -> ->.
  - destruct (Hnone _ _ _ Hcrawl) as [Hv Hr]. split; [done|].
    intros ? ? ? Hin. rewrite Hc in Hin.
    apply list_elem_of_singleton in Hin. by injection Hin as -> -> ->.
Qed.

Lemma worker_returned_dec (w : worker) : {w = Returned} + {w ≠ Returned}.
Proof. destruct w; (by left) || (by right). Qed.

(** X16. With at least one worker [Crawl] cannot get stuck: in every
    state it can reach, either it is over ([Crawl] has returned the
    stream, all workers have returned and the stream is closed), or one of
    its goroutines can take a step, whether or not the context is
    cancelled and whether or not anybody reads the stream. *)
Theorem Crawl_no_deadlock c seedURL s0 tr s :
  1 <= MaxWorkers (config c) →
  Crawl c seedURL = Spawned s0 → run c s0 tr s →
  (main s = HasStream ∧ Forall (λ w, w = Returned) (workers s)
   ∧ results_closed s = true)
  ∨ ∃ l s', step c s l s' ∧ CrawlMeasure.internal l = true.
Proof.
  intros Hn Hstart Hrun.
  pose proof (CrawlFacts.invariant_run _ _ _ _ _ Hstart Hrun) as Hinv.
  destruct Hinv as [Hmain Hjobs Hres Hws Hclosed Hphase].
  destruct s as [v b m j jc r rc ws]. cbn in *.
  assert (0 < capacity c)%nat as Hcap by (unfold capacity; lia).
  assert (m = HasStream ∨ ∃ l s', step c (State v b m j jc r rc ws) l s'
                                   ∧ CrawlMeasure.internal l = true) as Hcaller.
  { destruct m as [url| |]; [right|right|by left].
    - destruct Hmain as (-> & Hp & _). rewrite Hp in Hjobs.
      apply app_eq_nil in Hjobs as [_ ->].
      exists (Push seedURL). eexists. split; [by apply step_push|done].
    - destruct Hmain as [_ ->].
      exists Close. eexists. split; [by apply step_close|done]. }
  destruct (Forall_Exists_dec (λ w, w = Returned) (λ w, w ≠ Returned)
              worker_returned_dec ws) as [Hall|Hsome].
  { destruct rc.
    - destruct Hcaller as [->|Hstep]; [by left|by right].
    - right. exists CloseResults. eexists.
      split; [by apply step_close_results|done]. }
  right. apply Exists_exists in Hsome as (w & Hin & Hw).
  apply list_elem_of_lookup in Hin as [i Hi].
  assert (rc = false) as ->.
  { destruct rc; [|done].
    by destruct (Hw (CrawlFacts.all_returned_lookup _ _ _ (Hclosed eq_refl) Hi)). }
  destruct Hcaller as [->|Hstep]; [|done].
  destruct Hmain as [_ ->]. destruct w as [|url|result|]; [| | |done].
  - destruct j as [|url j].
    + exists (Exit i). eexists. split; [by apply step_exit_closed|done].
    + exists (Dispatch i url). eexists. split; [by apply step_dispatch|done].
  - pose (w := {| limiter := Tick; NewRequest := λ _, None;
                  Do := λ _, inr ""; ParseWithPlaywright := λ _, inr "";
                  ollama := λ _ _, Summarizer.PostFails "" |}).
    destruct (crawlURL c w v url 0) as [result v'] eqn:Hcrawl.
    exists (Crawled i url w result). eexists.
    split; [by eapply step_crawl|done].
  - exists (Publish i result). eexists. split; [|done].
    apply step_publish; [done|].
    destruct Hphase as [_ _ _ _ Hidle _|k _ _ _ _ Hbusy _
                        |k ? ? _ _ Hp _ _ _|? ? _ _ _ Hidle _].
    + by destruct (CrawlFacts.idle_lookup _ _ _ Hidle Hi).
    + by destruct (CrawlFacts.busy_unique _ _ _ _ _ Hbusy Hi
                     (CrawlFacts.not_resting_AtResults _)).
    + rewrite Hp in Hres. symmetry in Hres.
      apply app_eq_nil in Hres as [_ ->]. done.
    + by destruct (CrawlFacts.idle_lookup _ _ _ Hidle Hi).
Qed.

Lemma weight_insert ws i w w' :
  ws !! i = Some w →
  (sum_list (CrawlMeasure.weight <$> <[i:=w']> ws) + CrawlMeasure.weight w
   = sum_list (CrawlMeasure.weight <$> ws) + CrawlMeasure.weight w')%nat.
Proof.
  revert i. induction ws as [|x ws IH]; intros [|i] Hi; try done.
  - injection Hi as ->. cbn. lia.
  - cbn in Hi. specialize (IH i Hi).
    change (<[S i:=w']> (x :: ws)) with (x :: <[i:=w']> ws).
    rewrite !fmap_cons. unfold sum_list in *. cbn [sum_list_with]. lia.
Qed.

Lemma step_potential c s l s' :
  step c s l s' →
  (CrawlMeasure.potential s'
   + (if CrawlMeasure.internal l then 1 else 0) ≤ CrawlMeasure.potential s)%nat.
Proof.
  intros Hstep. unfold CrawlMeasure.potential.
  destruct Hstep as [| | |? ? ? ? ? ? ? ? ? ? Hi|? ? ? ? ? ? ? ? Hi
                     |? ? ? ? ? ? ? Hi|? ? ? ? ? ? ? ? ? ? ? ? ? Hi
                     |? ? ? ? ? ? ? ? ? Hi|? ? ? ? ? ? ? ? ? Hi| |];
    cbn [main jobs workers results_closed CrawlMeasure.internal];
    rewrite ?length_app; cbn [length];
    try pose proof (weight_insert _ _ _ (InCrawlURL url) Hi);
    try pose proof (weight_insert _ _ _ Returned Hi);
    try pose proof (weight_insert _ _ _ (AtResults result) Hi);
    try pose proof (weight_insert _ _ _ AtJobs Hi);
    cbn [CrawlMeasure.weight] in *; try destruct rc; lia.
Qed.

(** X17. A crawl is finite: whatever the schedule, the goroutines of
    [Crawl] take at most [MaxWorkers + 7] steps in all. *)
Theorem Crawl_terminates c seedURL s0 tr s :
  Crawl c seedURL = Spawned s0 → run c s0 tr s →
  (length (List.filter CrawlMeasure.internal tr)
   ≤ Z.to_nat (MaxWorkers (config c)) + 7)%nat.
Proof.
  intros Hstart Hrun.
  assert (CrawlMeasure.potential s0 = Z.to_nat (MaxWorkers (config c)) + 7)%nat
    as Hpot.
  { revert Hstart. unfold Crawl. repeat case_match; try done. intros [= <-].
    unfold CrawlMeasure.potential. cbn.
    set (n := Z.to_nat _). clearbody n.
    assert (sum_list (CrawlMeasure.weight <$> replicate n AtJobs) = n) as ->.
    { induction n as [|n IH]; [done|]. cbn. by rewrite IH. }
    lia. }
  rewrite <- Hpot. clear Hpot Hstart.
  assert (length (List.filter CrawlMeasure.internal tr)
          + CrawlMeasure.potential s ≤ CrawlMeasure.potential s0)%nat; [|lia].
  induction Hrun as [|tr s l s' _ IH Hstep]; [cbn; lia|].
  pose proof (step_potential _ _ _ _ Hstep) as Hdown.
  rewrite List.filter_app, length_app. cbn [List.filter].
  destruct (CrawlMeasure.internal l); cbn [length]; lia.
Qed.

(** X18. A crawl with at least one worker that ends without cancellation
    delivers its [Result]: when all workers have returned, [Crawl] has
    returned the stream, the seed was crawled, and the one [Result] of
    that call was sent on the stream. *)
Theorem Crawl_delivers c seedURL s0 tr s :
  1 <= MaxWorkers (config c) →
  Crawl c seedURL = Spawned s0 → run c s0 tr s →
  cancelled s = false → Forall (λ w, w = Returned) (workers s) →
  main s = HasStream
  ∧ dropped tr = []
  ∧ ∃ w result,
      published tr = [result]
      ∧ crawlURL c w (visited c) seedURL 0 = (result, seen s)
      ∧ URL result = seedURL ∧ Depth result = 0.
Proof.
  intros Hn Hstart Hrun Hb Hall.
  pose proof (CrawlFacts.invariant_run _ _ _ _ _ Hstart Hrun) as Hinv.
  destruct Hinv as [Hmain Hjobs Hres Hws Hclosed Hphase].
  assert (∃ w0, workers s !! 0%nat = Some w0) as [w0 H0].
  { apply lookup_lt_is_Some. rewrite Hws. unfold capacity. lia. }
  pose proof (CrawlFacts.all_returned_lookup _ _ _ Hall H0) as ->.
  destruct (CrawlFacts.returned_after_close _ _ _ _ _ Hstart Hrun Hb _ H0) as [Hj Hjc].
  rewrite Hjc in Hmain. rewrite Hj, app_nil_r in Hjobs.
  destruct (main s) as [url| |]; [by destruct Hmain as (_ & _ & [=])
                                 |by destruct Hmain as (_ & [=])|].
  destruct Hmain as [Hp _]. rewrite Hp in Hjobs. split; [done|].
  destruct Hphase as [Hd _ _ _ _ _|k _ _ _ _ Hbusy _
                      |k ? ? _ _ _ _ Hbusy _|w result _ _ Hcrawl _ Hend].
  - by rewrite Hd in Hjobs.
  - destruct Hbusy as [Hk _].
    by pose proof (CrawlFacts.all_returned_lookup _ _ _ Hall Hk).
  - destruct Hbusy as [Hk _].
    by pose proof (CrawlFacts.all_returned_lookup _ _ _ Hall Hk).
  - destruct Hend as [[Hpub Hdrop]|(_ & _ & Hcancel)]; [|congruence].
    split; [done|]. exists w, result. split; [done|]. split; [done|].
    by apply (CrawlFacts.crawlURL_result c w (visited c) _ _ _ (seen s)).
Qed.

(** X19. With [MaxWorkers = 0] the call of [Crawl] never returns: the
    queue has neither buffer nor reader, so the caller stays at the send
    of the seed for ever, and no [Result] is produced. *)
Theorem Crawl_without_workers c seedURL s0 tr s :
  MaxWorkers (config c) = 0 → Crawl c seedURL = Spawned s0 → run c s0 tr s →
  main s = SendSeed seedURL
  ∧ (∀ l s', step c s l s' → l = Cancel ∨ l = CloseResults)
  ∧ workers s = [] ∧ jobs s = [] ∧ published tr = [].
Proof.
  intros Hnone Hstart Hrun.
  destruct (CrawlFacts.Crawl_blocks_without_workers _ _ _ _ _ Hnone Hstart Hrun)
    as [Hm Hpush].
  pose proof (CrawlFacts.invariant_run _ _ _ _ _ Hstart Hrun) as Hinv.
  pose proof (CrawlFacts.invariant_history _ _ _ _ Hinv) as (_ & _ & Hpub).
  destruct Hinv as [Hmain Hjobs Hres Hws _ _]. rewrite Hm in Hmain.
  destruct Hmain as (_ & Hp & _). rewrite Hp in Hjobs.
  apply app_eq_nil in Hjobs as [Hd Hj].
  assert (workers s = []) as Hnil.
  { apply length_zero_iff_nil. rewrite Hws. unfold capacity. by rewrite Hnone. }
  assert (published tr = []) as Hnopub.
  { destruct Hpub as [|(? & ? & ? & _ & Hd' & _)]; [done|congruence]. }
  rewrite Hnopub in Hres. symmetry in Hres. apply app_eq_nil in Hres as [_ Hr].
  split; [done|]. split; [|done].
  intros l s' Hstep. destruct Hstep; cbn in *; subst; try done; auto.
  by destruct (Hpush _ _ (step_push c _ _ _ _ _ _ _ _ ltac:(eassumption))).
Qed.

(** X20. Nothing is ever taken back: along any execution the visited set
    only grows, a cancelled context stays cancelled, a closed channel
    stays closed, a worker that has returned stays so, and the number of
    workers does not change. *)
Theorem run_monotone c s tr s' :
  run c s tr s' →
  seen s ⊆ seen s'
  ∧ (cancelled s = true → cancelled s' = true)
  ∧ (jobs_closed s = true → jobs_closed s' = true)
  ∧ (results_closed s = true → results_closed s' = true)
  ∧ length (workers s') = length (workers s)
  ∧ ∀ k, workers s !! k = Some Returned → workers s' !! k = Some Returned.
Proof.
  induction 1 as [|tr s1 l s2 _ IH Hstep]; [done|].
  destruct IH as (Hv & Hb & Hjc & Hrc & Hlen & Hret).
  assert (∀ (ws : list worker) i w w' k,
            ws !! i = Some w → w ≠ Returned → ws !! k = Some Returned →
            <[i:=w']> ws !! k = Some Returned) as Hkeep.
  { intros ws i w w' k Hi Hw Hk. rewrite list_lookup_insert_ne; [done|].
    intros ->. congruence. }
  destruct Hstep as [| | |? ? ? ? ? ? ? ? ? ? Hi|? ? ? ? ? ? ? ? Hi
                     |? ? ? ? ? ? ? Hi|? ? ? ? ? ? ? ? ? ? ? ? ? Hi ? Hcrawl
                     |? ? ? ? ? ? ? ? ? Hi|? ? ? ? ? ? ? ? ? Hi| |];
    cbn in *; rewrite ?length_insert;
    repeat split; try done; try (intros k Hk; by eapply Hkeep; eauto).
  apply (CrawlFacts.crawlURL_seen c) in Hcrawl. set_solver.
Qed.

(** X21. Once the stream is closed it is over: no worker is left, no
    [Result] is sent and [crawlURL] is not called any more, so nothing is
    ever sent on the closed stream and the visited set is final. *)
Theorem Crawl_closed_is_final c seedURL s0 tr s tr' s' :
  Crawl c seedURL = Spawned s0 → run c s0 tr s →
  results_closed s = true → run c s tr' s' →
  results_closed s' = true ∧ workers s' = workers s ∧ seen s' = seen s
  ∧ published tr' = [] ∧ crawls tr' = [] ∧ dispatched tr' = [].
Proof.
  intros Hstart Hrun Hrc Hrun'.
  pose proof (CrawlFacts.invariant_run _ _ _ _ _ Hstart Hrun) as Hinv.
  destruct Hinv as [_ _ _ _ Hclosed _]. specialize (Hclosed Hrc).
  induction Hrun' as [|tr' s1 l s2 _ IH Hstep]; [done|].
  destruct IH as (Hrc1 & Hws & Hv & Hp & Hc & Hd).
  rewrite CrawlFacts.published_snoc, CrawlFacts.crawls_snoc,
    CrawlFacts.dispatched_snoc, Hp, Hc, Hd.
  rewrite <- Hws in Hclosed.
  destruct Hstep as [| | |? ? ? ? ? ? ? ? ? ? Hi|? ? ? ? ? ? ? ? Hi
                     |? ? ? ? ? ? ? Hi|? ? ? ? ? ? ? ? ? ? ? ? ? Hi
                     |? ? ? ? ? ? ? ? ? Hi|? ? ? ? ? ? ? ? ? Hi| |];
    cbn in *; try done;
    by pose proof (CrawlFacts.all_returned_lookup _ _ _ Hclosed Hi).
Qed.

End WithNetUrl.

Lemma Crawl_channels_safe_witness :
  (length (jobs Examples.blog_end) ≤ 1)%nat
  ∧ (length (results Examples.blog_end) ≤ 1)%nat.
Proof.
  destruct (Crawl_channels_safe
              (Examples.crawler (Examples.config 2 1 "")) Examples.seed
              (Examples.spawned 1) Examples.blog_trace Examples.blog_end
              (CrawlFacts.Crawl_spawns 1) CrawlFacts.run_blog)
    as (_ & _ & Hjobs & Hresults).
  split; [exact Hjobs|exact Hresults].
Defined.

Lemma Crawl_single_result_witness :
  published Examples.blog_trace
  = consumed Examples.blog_trace ++ results Examples.blog_end.
Proof.
  destruct (Crawl_single_result
              (Examples.crawler (Examples.config 2 1 "")) Examples.seed
              (Examples.spawned 1) Examples.blog_trace Examples.blog_end
              (CrawlFacts.Crawl_spawns 1) CrawlFacts.run_blog)
    as (_ & _ & Hfifo & _).
  exact Hfifo.
Defined.

Lemma Crawl_no_deadlock_witness :
  (main (Examples.spawned 1) = HasStream
   ∧ Forall (λ w, w = Returned) (workers (Examples.spawned 1))
   ∧ results_closed (Examples.spawned 1) = true)
  ∨ ∃ l s', step (L := GoUrl.lib) (Examples.crawler (Examples.config 2 1 ""))
              (Examples.spawned 1) l s'
      ∧ CrawlMeasure.internal l = true.
Proof.
  apply (Crawl_no_deadlock
           (Examples.crawler (Examples.config 2 1 "")) Examples.seed
           (Examples.spawned 1) [] (Examples.spawned 1)).
  - vm_compute. discriminate.
  - exact (CrawlFacts.Crawl_spawns 1).
  - apply run_nil.
Defined.

Lemma Crawl_terminates_witness :
  (length (List.filter CrawlMeasure.internal Examples.blog_trace) ≤ 1 + 7)%nat.
Proof.
  apply (Crawl_terminates
           (Examples.crawler (Examples.config 2 1 "")) Examples.seed
           (Examples.spawned 1) Examples.blog_trace Examples.blog_end
           (CrawlFacts.Crawl_spawns 1) CrawlFacts.run_blog).
Defined.

Lemma Crawl_delivers_witness :
  main Examples.blog_end = HasStream
  ∧ dropped Examples.blog_trace = []
  ∧ ∃ w result,
      published Examples.blog_trace = [result]
      ∧ crawlURL (Examples.crawler (Examples.config 2 1 "")) w ∅
          Examples.seed 0 = (result, seen Examples.blog_end)
      ∧ URL result = Examples.seed ∧ Depth result = 0.
Proof.
  apply (Crawl_delivers
           (Examples.crawler (Examples.config 2 1 "")) Examples.seed
           (Examples.spawned 1) Examples.blog_trace Examples.blog_end).
  - vm_compute. discriminate.
  - exact (CrawlFacts.Crawl_spawns 1).
  - exact CrawlFacts.run_blog.
  - reflexivity.
  - repeat constructor.
Defined.

Lemma Crawl_without_workers_witness :
  main (Examples.spawned 0) = SendSeed Examples.seed
  ∧ (∀ (l : label (L := GoUrl.lib)) s',
       step (Examples.crawler (Examples.config 2 0 "")) (Examples.spawned 0) l s' →
       l = Cancel ∨ l = CloseResults)
  ∧ workers (Examples.spawned 0) = [] ∧ jobs (Examples.spawned 0) = []
  ∧ published (L := GoUrl.lib) [] = [].
Proof.
  apply (Crawl_without_workers
           (Examples.crawler (Examples.config 2 0 "")) Examples.seed
           (Examples.spawned 0) [] (Examples.spawned 0)).
  - reflexivity.
  - exact (CrawlFacts.Crawl_spawns 0).
  - apply run_nil.
Defined.

Lemma run_monotone_witness :
  seen (Examples.spawned 1) ⊆ seen Examples.blog_end
  ∧ length (workers Examples.blog_end) = length (workers (Examples.spawned 1)).
Proof.
  destruct (run_monotone
              (Examples.crawler (Examples.config 2 1 ""))
              (Examples.spawned 1) Examples.blog_trace Examples.blog_end
              CrawlFacts.run_blog) as (Hseen & _ & _ & _ & Hlen & _).
  split; [exact Hseen|exact Hlen].
Defined.

Lemma Crawl_closed_is_final_witness :
  published (L := GoUrl.lib) [Cancel] = []
  ∧ crawls (L := GoUrl.lib) [Cancel] = [].
Proof.
  destruct (Crawl_closed_is_final
              (Examples.crawler (Examples.config 2 1 "")) Examples.seed
              (Examples.spawned 1) Examples.blog_trace Examples.blog_end
              [Cancel]
              (State {["https://example.com/b"]} true HasStream [] true
                 [Examples.blog_result] true [Returned])
              (CrawlFacts.Crawl_spawns 1) CrawlFacts.run_blog)
    as (_ & _ & _ & Hp & Hc & _).
  - reflexivity.
  - apply (run_snoc _ _ [] Examples.blog_end); [apply run_nil|apply step_cancel].
  - split; [exact Hp|exact Hc].
Defined.

Lemma Crawl_shallow :
  Crawl (Examples.crawler (Examples.config 0 1 "")) Examples.seed
  = Spawned (Examples.spawned 1).
Proof.
  unfold Crawl. change (Parse Examples.seed) with (GoUrl.Parse Examples.seed).
  by rewrite CrawlURLFacts.Parse_seed.
Qed.

Lemma run_shallow :
  run (Examples.crawler (Examples.config 0 1 "")) (Examples.spawned 1)
    [Push Examples.seed; Close; Dispatch 0 Examples.seed;
     Crawled 0 Examples.seed Examples.blog
       {| URL := Examples.seed; Content := ""; Links := []; Depth := 0;
          Summary := ""; Error := None |}]
    (State ∅ false HasStream [] true [] false
       [AtResults {| URL := Examples.seed; Content := ""; Links := [];
                     Depth := 0; Summary := ""; Error := None |}]).
Proof.
  unfold Examples.spawned.
  eapply CrawlFacts.run_cons; [apply step_push; vm_compute; lia|].
  eapply CrawlFacts.run_cons; [apply step_close|].
  eapply CrawlFacts.run_cons; [by apply step_dispatch|].
  eapply CrawlFacts.run_cons.
  { eapply step_crawl; [done|done|]. vm_compute. reflexivity. }
  apply run_nil.
Qed.

Lemma Crawl_depth_zero_witness :
  (∅ : gset string) = visited (Examples.crawler (Examples.config 0 1 ""))
  ∧ ∀ url w result,
      (url, w, result)
      ∈ crawls [Push Examples.seed; Close; Dispatch 0 Examples.seed;
                Crawled 0 Examples.seed Examples.blog
                  {| URL := Examples.seed; Content := ""; Links := [];
                     Depth := 0; Summary := ""; Error := None |}] →
      result = {| URL := Examples.seed; Content := ""; Links := []; Depth := 0;
                  Summary := ""; Error := None |}.
Proof.
  apply (Crawl_depth_zero
           (Examples.crawler (Examples.config 0 1 "")) Examples.seed
           (Examples.spawned 1) _ _ ltac:(vm_compute; discriminate)
           Crawl_shallow run_shallow).
Defined.

End CrawlProgress.

(** * Properties of the renderer *)

Module RendererFacts.
Import GoStrings Renderer StringFacts.

Lemma initPlaywright_once d rt : once (initPlaywright d rt).1.1 = true.
Proof.
  unfold initPlaywright. destruct (once rt) eqn:Honce; [done|].
  destruct (Run d); [destruct (Launch d)|]; done.
Qed.

Lemma initPlaywright_initErr d rt :
  initErr (initPlaywright d rt).1.1 = (initPlaywright d rt).2.
Proof.
  unfold initPlaywright. destruct (once rt) eqn:Honce; [done|].
  destruct (Run d); [destruct (Launch d)|]; done.
Qed.

Lemma initPlaywright_pw d rt : pw (initPlaywright d rt).1.1 = pw rt.
Proof.
  unfold initPlaywright. destruct (once rt) eqn:Honce; [done|].
  destruct (Run d); [destruct (Launch d)|]; done.
Qed.

Lemma initPlaywright_again d d' rt :
  initPlaywright d' (initPlaywright d rt).1.1
  = ((initPlaywright d rt).1.1, [], (initPlaywright d rt).2).
Proof.
  unfold initPlaywright at 1.
  by rewrite initPlaywright_once, initPlaywright_initErr.
Qed.

(** X22. [initPlaywright] starts the driver and the browser at most once:
    after a first call, any number of later calls changes nothing, and
    each of them performs nothing and returns what the first call
    returned, whatever the driver would answer now. *)
Theorem initPlaywright_is_final d ds d' rt :
  initAll ds (initPlaywright d rt).1.1 = (initPlaywright d rt).1.1
  ∧ initPlaywright d' (initAll ds (initPlaywright d rt).1.1)
    = ((initPlaywright d rt).1.1, [], (initPlaywright d rt).2).
Proof.
  assert (initAll ds (initPlaywright d rt).1.1 = (initPlaywright d rt).1.1)
    as Hsame.
  { induction ds as [|d1 ds IH]; [done|]. cbn.
    by rewrite initPlaywright_again. }
  split; [done|]. rewrite Hsame. apply initPlaywright_again.
Qed.

(** X23. A render that fails because the browser could not be started
    fails for good: every later call of [ParseWithPlaywright] returns the
    same error at once, also when the driver and the browser would now
    start. *)
Theorem ParseWithPlaywright_keeps_failing d b rt url rt' effects err d' b' url' :
  ParseWithPlaywright d b rt url = (rt', effects, Failed (ErrInitialize err)) →
  ParseWithPlaywright d' b' rt' url' = (rt', [], Failed (ErrInitialize err)).
Proof.
  unfold ParseWithPlaywright.
  pose proof (initPlaywright_again d d' rt) as Hfinal.
  destruct (initPlaywright d rt) as [[rt1 eff1] err1]. cbn in Hfinal.
  intros Hfirst. assert (rt1 = rt' ∧ err1 = Some err) as [-> ->].
  { destruct err1 as [e|]; [by injection Hfirst as -> _ ->|].
    injection Hfirst as _ _ Hout. revert Hout. by repeat case_match. }
  by rewrite Hfinal.
Qed.

Lemma ParseWithPlaywright_keeps_failing_witness :
  ParseWithPlaywright {| Run := inl 1%nat; Launch := inl 2%nat |}
    {| NewContext := None; NewPage := None; Goto := λ _, None;
       EvaluateContent := None; ContentValue := inl (JString "text");
       EvaluateLinks := None; LinksValue := inl (JArray []) |}
    {| pw := None; browser := None; once := true;
       initErr := Some (ErrStart "no driver") |} "https://example.com/b"
  = ({| pw := None; browser := None; once := true;
        initErr := Some (ErrStart "no driver") |}, [],
     Failed (ErrInitialize (ErrStart "no driver"))).
Proof.
  apply (ParseWithPlaywright_keeps_failing
           {| Run := inr "no driver"; Launch := inl 2%nat |}
           {| NewContext := None; NewPage := None; Goto := λ _, None;
              EvaluateContent := None; ContentValue := inl (JString "text");
              EvaluateLinks := None; LinksValue := inl (JArray []) |}
           fresh "https://example.com/a" _ []).
  reflexivity.
Defined.

Lemma initAll_pw ds rt : pw (initAll ds rt) = pw rt.
Proof.
  revert rt. induction ds as [|d ds IH]; intros rt; [done|].
  cbn. unfold initAll in IH. by rewrite IH, initPlaywright_pw.
Qed.

(** X24. The package variable [pw] is never assigned, because the function
    literal in [initPlaywright] declares a [pw] of its own. So however
    often the renderer was used, [Cleanup] does not stop the Playwright
    driver: at most it closes the browser. *)
Theorem Cleanup_leaves_the_driver ds :
  pw (initAll ds fresh) = None
  ∧ (∀ p, Stop p ∉ Cleanup (initAll ds fresh))
  ∧ (Cleanup (initAll ds fresh) = []
     ∨ ∃ b, browser (initAll ds fresh) = Some b
            ∧ Cleanup (initAll ds fresh) = [CloseBrowser b]).
Proof.
  pose proof (initAll_pw ds fresh) as Hpw. cbn in Hpw.
  split; [done|]. unfold Cleanup. rewrite Hpw.
  destruct (browser (initAll ds fresh)) as [b|]; cbn.
  - split; [|right; by exists b].
    intros p [=]%list_elem_of_singleton.
  - split; [|by left]. by intros p ?%elem_of_nil.
Qed.

Lemma linksList_strings l : linksList (JArray (JString <$> l)) = l.
Proof.
  cbn. induction l as [|x l IH]; [done|]. cbn. by rewrite IH.
Qed.

(** X25. What a successful render returns: the text is the page's content
    with the white space at both ends removed (so trimming it again
    changes nothing), or empty for a null content; the links are the
    string elements of the array the page script returned, in order, and
    all of them when the array holds strings only. *)
Theorem ParseWithPlaywright_parsed d b rt url rt' effects result :
  ParseWithPlaywright d b rt url = (rt', effects, Parsed result) →
  TrimSpace (Parser.Text result) = Parser.Text result
  ∧ (∃ content, ContentValue b = inl content
       ∧ Parser.Text result
         = match content with JString s => TrimSpace s | _ => "" end)
  ∧ (∃ links, LinksValue b = inl links
       ∧ Parser.Links result = linksList links
       ∧ ∀ l, links = JArray (JString <$> l) → Parser.Links result = l)
  ∧ Goto b url = None.
Proof.
  unfold ParseWithPlaywright.
  destruct (initPlaywright d rt) as [[rt1 eff1] err1].
  intros [= _ _ Hout]. revert Hout.
  destruct err1; [done|]. destruct (browser rt1); [|done].
  destruct (NewContext b); [done|].
  destruct (NewPage b); [done|]. destruct (Goto b url); [done|].
  destruct (EvaluateContent b); [done|].
  destruct (ContentValue b) as [content|]; [|done].
  destruct (EvaluateLinks b); [done|].
  destruct (LinksValue b) as [links|]; [|done].
  assert (∀ l, links = JArray (JString <$> l) → linksList links = l) as Hall.
  { intros l ->. apply linksList_strings. }
  destruct content as [|s| |]; try done; intros [= <-]; cbn [Parser.Text Parser.Links].
  - split; [done|]. split; [by exists JNull|]. split; [|done]. by exists links.
  - split; [apply TrimSpace_fix|]. split; [by exists (JString s)|].
    split; [|done]. by exists links.
Qed.

Lemma ParseWithPlaywright_parsed_witness :
  TrimSpace "Hello world" = "Hello world"
  ∧ (∃ content, (inl (JString "  Hello world ") : json + string) = inl content
       ∧ "Hello world"
         = match content with JString s => TrimSpace s | _ => "" end)
  ∧ (∃ links,
       (inl (JArray [JString "https://example.com/b"; JOther]) : json + string)
       = inl links
       ∧ ["https://example.com/b"] = linksList links
       ∧ ∀ l, links = JArray (JString <$> l) → ["https://example.com/b"] = l)
  ∧ (None : option string) = None.
Proof.
  apply (ParseWithPlaywright_parsed
           {| Run := inl 1%nat; Launch := inl 2%nat |}
           {| NewContext := None; NewPage := None; Goto := λ _, None;
              EvaluateContent := None;
              ContentValue := inl (JString "  Hello world ");
              EvaluateLinks := None;
              LinksValue :=
                inl (JArray [JString "https://example.com/b"; JOther]) |}
           fresh "https://example.com/a"
           {| pw := None; browser := Some 2%nat; once := true;
              initErr := None |} []
           {| Parser.Text := "Hello world";
              Parser.Links := ["https://example.com/b"] |}).
  vm_compute. reflexivity.
Defined.

(** After a successful [initPlaywright] the browser is there. *)
Lemma initPlaywright_browser d rt :
  (once rt = true → initErr rt = None → is_Some (browser rt)) →
  (once (initPlaywright d rt).1.1 = true →
   initErr (initPlaywright d rt).1.1 = None →
   is_Some (browser (initPlaywright d rt).1.1)).
Proof.
  unfold initPlaywright. destruct (once rt) eqn:Honce; [by auto|].
  destruct (Run d); [destruct (Launch d)|]; cbn; try done; eauto.
Qed.

Lemma initAll_browser ds rt :
  (once rt = true → initErr rt = None → is_Some (browser rt)) →
  (once (initAll ds rt) = true → initErr (initAll ds rt) = None →
   is_Some (browser (initAll ds rt))).
Proof.
  revert rt. induction ds as [|d ds IH]; intros rt Hrt; [done|].
  cbn. apply IH. by apply initPlaywright_browser.
Qed.

(** X26. However the renderer was used before, [ParseWithPlaywright] never
    finds the browser missing after a successful initialisation, and it
    panics exactly when every call to the browser succeeds and the
    content the page script returned is neither null nor a string: the
    type assertion [content.(string)] is not guarded. A links value of the
    wrong type gives no links instead. *)
Theorem ParseWithPlaywright_panics ds d b url :
  (ParseWithPlaywright d b (initAll ds fresh) url).2 ≠ PanicNoBrowser
  ∧ ((ParseWithPlaywright d b (initAll ds fresh) url).2 = PanicNotString
     ↔ (initPlaywright d (initAll ds fresh)).2 = None
       ∧ NewContext b = None ∧ NewPage b = None ∧ Goto b url = None
       ∧ EvaluateContent b = None ∧ EvaluateLinks b = None
       ∧ (∃ links, LinksValue b = inl links)
       ∧ ∃ content, ContentValue b = inl content
           ∧ content ≠ JNull ∧ ∀ s, content ≠ JString s).
Proof.
  unfold ParseWithPlaywright.
  pose proof (initPlaywright_browser d (initAll ds fresh)
                (initAll_browser ds fresh ltac:(done))) as Hbrowser.
  pose proof (initPlaywright_once d (initAll ds fresh)) as Honce.
  pose proof (initPlaywright_initErr d (initAll ds fresh)) as Herr.
  destruct (initPlaywright d (initAll ds fresh)) as [[rt1 eff1] err1].
  cbn in Hbrowser, Honce, Herr |- *. destruct err1 as [e|].
  { split; [done|]. split; [done|]. by intros [[=] _]. }
  destruct (Hbrowser Honce Herr) as [handle ->].
  split.
  { repeat case_match; done. }
  split.
  - destruct (NewContext b); [done|].
    destruct (NewPage b); [done|]. destruct (Goto b url); [done|].
    destruct (EvaluateContent b); [done|].
    destruct (ContentValue b) as [content|]; [|done].
    destruct (EvaluateLinks b); [done|].
    destruct (LinksValue b) as [links|]; [|done].
    destruct content; try done; intros _; repeat (split; [by eauto|]);
      eexists; (split; [reflexivity|]); done.
  - intros (_ & -> & -> & -> & -> & -> & [links ->] & content & -> & Hnull & Hstr).
    destruct content as [|s| |]; try done. by destruct (Hstr s).
Qed.

Lemma indexOf_bounds l l' x :
  x ∈ l → 0 <= indexOf (l ++ l') x < Z.of_nat (length l).
Proof.
  induction l as [|y l IH]; [by intros ?%elem_of_nil|].
  intros Hx. cbn [app indexOf length]. destruct (decide (y = x)); [lia|].
  apply elem_of_cons in Hx as [->|Hx]; [done|]. specialize (IH Hx).
  destruct (Z.ltb_spec (indexOf (l ++ l') x) 0); lia.
Qed.

Lemma indexOf_first before rest x :
  indexOf (before ++ x :: rest) x = Z.of_nat (length before) ↔ x ∉ before.
Proof.
  split.
  - intros Heq Hin. pose proof (indexOf_bounds before (x :: rest) x Hin). lia.
  - induction before as [|y before IH]; intros Hnot.
    + cbn. by rewrite decide_True.
    + apply not_elem_of_cons in Hnot as [Hne Hnot]. specialize (IH Hnot).
      cbn [app indexOf length]. rewrite decide_False by done. rewrite IH.
      destruct (Z.ltb_spec (Z.of_nat (length before)) 0); lia.
Qed.

Lemma filterFrom_unique self before rest :
  self = before ++ rest →
  let out := filterFrom (λ href index, indexOf self href =? index)
               (Z.of_nat (length before)) rest in
  NoDup out ∧ (∀ x, x ∈ out ↔ x ∈ rest ∧ x ∉ before) ∧ sublist out rest.
Proof.
  revert before. induction rest as [|x rest IH]; intros before Hself out.
  { subst out. cbn. split; [apply NoDup_nil_2|]. split; [|done].
    intros x. split; [by intros ?%elem_of_nil|by intros [?%elem_of_nil _]]. }
  destruct (IH (before ++ [x])) as (Hnd & Hin & Hsub).
  { by rewrite <- app_assoc. }
  rewrite length_app, Nat2Z.inj_add in Hnd, Hin, Hsub. cbn [length] in *.
  change (Z.of_nat 1) with 1 in *.
  subst out. cbn [filterFrom].
  set (out' := filterFrom _ (Z.of_nat (length before) + 1) rest) in *.
  destruct (indexOf self x =? Z.of_nat (length before)) eqn:Hfirst.
  - apply Z.eqb_eq in Hfirst. rewrite Hself in Hfirst.
    apply indexOf_first in Hfirst. cbn [app].
    split; [|split].
    + apply NoDup_cons. split; [|done]. intros Hx. apply Hin in Hx as [_ Hx].
      apply Hx, elem_of_app. right. by apply list_elem_of_singleton.
    + intros y. rewrite !elem_of_cons, Hin, elem_of_app, list_elem_of_singleton.
      destruct (decide (y = x)) as [->|]; tauto.
    + by apply sublist_skip.
  - apply Z.eqb_neq in Hfirst. rewrite Hself in Hfirst.
    rewrite indexOf_first in Hfirst. cbn [app].
    assert (x ∈ before) as Hx by (by destruct (decide (x ∈ before))).
    split; [done|]. split; [|by apply sublist_cons].
    intros y. rewrite elem_of_cons, Hin, elem_of_app, list_elem_of_singleton.
    destruct (decide (y = x)) as [->|]; tauto.
Qed.

Lemma filter_sublist (p : string → bool) l : sublist (List.filter p l) l.
Proof.
  induction l as [|x l IH]; [done|]. cbn.
  destruct (p x); [by apply sublist_skip|by apply sublist_cons].
Qed.

Lemma elem_of_filter (p : string → bool) l x :
  x ∈ List.filter p l ↔ x ∈ l ∧ p x = true.
Proof.
  induction l as [|y l IH]; cbn.
  - split; [by intros ?%elem_of_nil|by intros [?%elem_of_nil _]].
  - destruct (p y) eqn:Hy; rewrite ?elem_of_cons, IH; [|split; [tauto|]].
    + split; [intros [->|]; tauto|tauto].
    + intros [[->|] Hx]; [congruence|tauto].
Qed.

Lemma indexOf_app_l l l' x : x ∈ l → indexOf (l ++ l') x = indexOf l x.
Proof.
  induction l as [|y l IH]; [by intros ?%elem_of_nil|].
  intros Hx. cbn [app indexOf]. destruct (decide (y = x)); [done|].
  apply elem_of_cons in Hx as [->|Hx]; [done|]. by rewrite IH.
Qed.

Lemma filterFrom_app p i l1 l2 :
  filterFrom p i (l1 ++ l2)
  = filterFrom p i l1 ++ filterFrom p (i + Z.of_nat (length l1)) l2.
Proof.
  revert i. induction l1 as [|x l1 IH]; intros i.
  { cbn. by rewrite Z.add_0_r. }
  cbn [app filterFrom length]. rewrite IH, <- app_assoc.
  by replace (i + 1 + Z.of_nat (length l1)) with (i + Z.of_nat (S (length l1)))
    by lia.
Qed.

Lemma filterFrom_ext p q i l :
  (∀ x k, x ∈ l → p x k = q x k) → filterFrom p i l = filterFrom q i l.
Proof.
  revert i. induction l as [|x l IH]; intros i Hpq; [done|].
  cbn [filterFrom]. rewrite Hpq by left. rewrite IH; [done|].
  intros y k Hy. apply Hpq. by right.
Qed.

(** The membership of [extractedLinks]. *)
Lemma extractedLinks_members hrefs :
  NoDup (extractedLinks hrefs)
  ∧ sublist (extractedLinks hrefs) hrefs
  ∧ ∀ href, href ∈ extractedLinks hrefs
      ↔ href ∈ hrefs
        ∧ (HasPrefix href "http://" = true ∨ HasPrefix href "https://" = true)
        ∧ Contains href "javascript:" = false.
Proof.
  unfold extractedLinks.
  set (web := List.filter _ hrefs). set (plain := List.filter _ web).
  destruct (filterFrom_unique plain [] plain eq_refl) as (Hnd & Hin & Hsub).
  cbn [length] in *. change (Z.of_nat 0) with 0 in *.
  split; [done|]. split.
  - etrans; [exact Hsub|]. etrans; apply filter_sublist.
  - intros href. rewrite Hin. subst plain web. rewrite !elem_of_filter.
    rewrite andb_true_iff, orb_true_iff, !negb_true_iff.
    split.
    + intros [[[? [? ?]] ?] _]. done.
    + intros (? & Hweb & ?). split; [|by intros ?%elem_of_nil].
      split; [|done]. split; [done|]. split; [|done].
      destruct href; [by destruct Hweb|done].
Qed.

(** One more [href] at the end of the page adds at most this [href], at
    the end. *)
Lemma extractedLinks_snoc hrefs h :
  extractedLinks (hrefs ++ [h]) = extractedLinks hrefs
  ∨ (h ∉ hrefs ∧ extractedLinks (hrefs ++ [h]) = extractedLinks hrefs ++ [h]).
Proof.
  destruct (extractedLinks_members hrefs) as (_ & _ & Hmem).
  assert (∀ plain : list string,
            filterFrom (λ href index, indexOf (plain ++ [h]) href =? index) 0
              (plain ++ [h])
            = filterFrom (λ href index, indexOf plain href =? index) 0 plain
              ++ (if bool_decide (h ∈ plain) then [] else [h])) as Hlast.
  { intros plain. rewrite filterFrom_app. f_equal.
    - apply filterFrom_ext. intros x k Hx. by rewrite indexOf_app_l.
    - cbn [filterFrom]. rewrite app_nil_r, Z.add_0_l.
      destruct (decide (h ∈ plain)) as [Hin|Hnot].
      + rewrite bool_decide_eq_true_2 by done.
        pose proof (indexOf_bounds plain [h] h Hin).
        destruct (Z.eqb_spec (indexOf (plain ++ [h]) h) (Z.of_nat (length plain)));
          [lia|done].
      + rewrite bool_decide_eq_false_2 by done.
        apply (indexOf_first plain [] h) in Hnot. by rewrite Hnot, Z.eqb_refl. }
  revert Hmem. unfold extractedLinks. rewrite !List.filter_app. cbn [List.filter].
  set (web := List.filter _ hrefs). set (plain := List.filter _ web).
  destruct (negb (String.eqb h "")
            && (HasPrefix h "http://" || HasPrefix h "https://")) eqn:Hweb;
    cbn [List.filter]; [|rewrite !app_nil_r; by left].
  destruct (negb (Contains h "javascript:")) eqn:Hplain;
    [|rewrite !app_nil_r; by left].
  intros Hmem. rewrite Hlast.
  destruct (decide (h ∈ plain)) as [Hin|Hnot].
  - rewrite bool_decide_eq_true_2 by done. rewrite app_nil_r. by left.
  - rewrite bool_decide_eq_false_2 by done. right. split; [|done].
    intros Hh. apply Hnot. subst plain web. rewrite !elem_of_filter. done.
Qed.

(** X27. The links the page script returns: every [href] of the page that
    starts with [http://] or [https://] and does not contain
    [javascript:], each once, in the order of its first occurrence: one
    link comes before another in the result exactly when its first
    occurrence on the page comes before that of the other. *)
Theorem extractedLinks_spec hrefs :
  NoDup (extractedLinks hrefs)
  ∧ sublist (extractedLinks hrefs) hrefs
  ∧ (∀ href, href ∈ extractedLinks hrefs
       ↔ href ∈ hrefs
         ∧ (HasPrefix href "http://" = true ∨ HasPrefix href "https://" = true)
         ∧ Contains href "javascript:" = false)
  ∧ ∀ x y, x ∈ extractedLinks hrefs → y ∈ extractedLinks hrefs →
      (indexOf (extractedLinks hrefs) x < indexOf (extractedLinks hrefs) y
       ↔ indexOf hrefs x < indexOf hrefs y).
Proof.
  destruct (extractedLinks_members hrefs) as (Hnd & Hsub & Hmem).
  split; [done|]. split; [done|]. split; [done|]. clear Hnd Hsub Hmem.
  induction hrefs as [|h hrefs IH] using rev_ind.
  { intros x y Hx. by apply elem_of_nil in Hx. }
  destruct (extractedLinks_members hrefs) as (_ & _ & Hmem).
  assert (∀ x, x ∈ extractedLinks hrefs → x ∈ hrefs) as Hsub
    by (intros x Hx; by apply Hmem in Hx as [? _]).
  destruct (extractedLinks_snoc hrefs h) as [->|[Hnew ->]].
  - intros x y Hx Hy.
    rewrite !indexOf_app_l by (by apply Hsub). by apply IH.
  - assert (h ∉ extractedLinks hrefs) as Hfresh by (intros Hin; by apply Hnew, Hsub).
    assert (indexOf (extractedLinks hrefs ++ [h]) h
            = Z.of_nat (length (extractedLinks hrefs))) as Hlast
      by (by apply indexOf_first).
    assert (indexOf (hrefs ++ [h]) h = Z.of_nat (length hrefs)) as Hlast'
      by (by apply indexOf_first).
    intros x y [Hx| ->%list_elem_of_singleton]%elem_of_app
               [Hy| ->%list_elem_of_singleton]%elem_of_app.
    + rewrite !indexOf_app_l by (done || by apply Hsub). by apply IH.
    + pose proof (indexOf_bounds _ [h] x Hx).
      pose proof (indexOf_bounds _ [h] x (Hsub x Hx)).
      rewrite Hlast, Hlast'. lia.
    + pose proof (indexOf_bounds _ [h] y Hy).
      pose proof (indexOf_bounds _ [h] y (Hsub y Hy)).
      rewrite Hlast, Hlast'. lia.
    + lia.
Qed.

Example extractedLinks_page :
  extractedLinks ["http://a.com/"; "mailto:x@a.com"; "https://b.com/";
                  "http://a.com/"; "https://c.com/?javascript:void"; ""]
  = ["http://a.com/"; "https://b.com/"].
Proof. vm_compute. reflexivity. Qed.

End RendererFacts.

(** * Properties of the prompt for authentication *)

Module AuthenticationFacts.
Import GoStrings Authentication StringFacts.

(** X28. [waitForAuthentication] gives up whenever the line read contains
    the word "cancel", in any mix of upper and lower case and whatever
    stands around it; an empty line, or no input at all, means go on. *)
Theorem waitForAuthentication_cancel before word after :
  ToLower word = "cancel" →
  waitForAuthentication (before +:+ word +:+ after) = false
  ∧ waitForAuthentication "" = true
  ∧ waitForAuthentication Summarizer.nl = true.
Proof.
  intros Hword. split; [|done]. unfold waitForAuthentication.
  rewrite !ToLower_append, Hword. by rewrite Contains_middle.
Qed.

Lemma waitForAuthentication_cancel_witness :
  waitForAuthentication (" " +:+ "CaNceL" +:+ String "010" "") = false
  ∧ waitForAuthentication "" = true
  ∧ waitForAuthentication Summarizer.nl = true.
Proof.
  apply (waitForAuthentication_cancel " " "CaNceL" (String "010" "")).
  vm_compute. reflexivity.
Defined.

End AuthenticationFacts.

(** * Properties of the command *)

Module MainFacts.
Import GoStrings NetUrl Crawler.

Lemma crawler_Some cfg c :
  Main.crawler cfg = Some c →
  Main.RateLimit cfg ≠ 0
  ∧ 0 < Summarizer.Second ÷ Main.RateLimit cfg
  ∧ c = {| config :=
             {| MaxDepth := Main.MaxDepth cfg;
                RateLimit := Summarizer.Second ÷ Main.RateLimit cfg;
                MaxWorkers := Main.MaxWorkers cfg; AllowedHost := "" |};
           visited := ∅; summarizer := Main.ollamaSummarizer |}.
Proof.
  unfold Main.crawler, Main.crawlerConfig.
  destruct (decide (Main.RateLimit cfg = 0)) as [|Hne]; [done|]. cbn.
  unfold New. cbn.
  destruct (Z.leb_spec (Summarizer.Second ÷ Main.RateLimit cfg) 0); [done|].
  by intros [= <-].
Qed.

(** X29. [main] gets a crawler exactly when the configured rate is between
    one request per second and one per nanosecond: a rate of zero makes
    the division panic, a negative or larger one makes [time.NewTicker]
    panic. The interval between two requests is then the largest whole
    number of nanoseconds that lets the configured number of requests
    start within a second. *)
Theorem main_rate cfg :
  ((∃ c, Main.crawler cfg = Some c) ↔ 1 <= Main.RateLimit cfg <= 1000000000)
  ∧ ∀ c, Main.crawler cfg = Some c →
      1 <= RateLimit (config c)
      ∧ RateLimit (config c) * Main.RateLimit cfg <= 1000000000
      ∧ 1000000000 < (RateLimit (config c) + 1) * Main.RateLimit cfg.
Proof.
  assert (∀ c, Main.crawler cfg = Some c →
            1 <= Main.RateLimit cfg <= 1000000000
            ∧ RateLimit (config c) = 1000000000 / Main.RateLimit cfg) as Hsome.
  { intros c (Hne & Hpos & ->)%crawler_Some. cbn [config RateLimit].
    unfold Summarizer.Second in *.
    destruct (Z.lt_trichotomy (Main.RateLimit cfg) 0) as [Hneg|[?|Hrate]];
      [|done|].
    - exfalso. pose proof (Z.quot_opp_r 1000000000 (Main.RateLimit cfg) Hne) as Hopp.
      assert (0 <= 1000000000 ÷ - Main.RateLimit cfg)
        by (apply Z.quot_pos; lia). lia.
    - rewrite Z.quot_div_nonneg in * by lia. split; [|done].
      split; [lia|]. destruct (Z.le_gt_cases (Main.RateLimit cfg) 1000000000);
        [done|]. rewrite Z.div_small in Hpos by lia. lia. }
  split; [split|].
  - intros [c Hc]. by destruct (Hsome c Hc).
  - intros Hrate. unfold Main.crawler, Main.crawlerConfig.
    rewrite decide_False by lia. cbn. unfold New. cbn.
    unfold Summarizer.Second. rewrite Z.quot_div_nonneg by lia.
    assert (1 <= 1000000000 / Main.RateLimit cfg)
      by (apply Z.div_le_lower_bound; lia).
    destruct (Z.leb_spec (1000000000 / Main.RateLimit cfg) 0); [lia|]. eauto.
  - intros c Hc. destruct (Hsome c Hc) as [Hrate ->].
    pose proof (Z.mul_div_le 1000000000 (Main.RateLimit cfg)).
    pose proof (Z.mul_succ_div_gt 1000000000 (Main.RateLimit cfg)).
    split; [apply Z.div_le_lower_bound; lia|]. split; lia.
Qed.

Section WithNetUrl.
Context {L : Lib}.

(** X30. [main] never sets [AllowedHost]: the crawler it runs lets every
    host through, also one reached by redirection, and no [Result] of it
    carries the error for a host that is not allowed. *)
Theorem main_allows_every_host cfg c w v urlStr depth result v' :
  Main.crawler cfg = Some c →
  crawlURL c w v urlStr depth = (result, v') →
  (∀ final, isAllowedHost (config c) final = true)
  ∧ ∀ final, Error result ≠ Some (ErrNonAllowedHost final).
Proof.
  intros Hc Hcrawl. pose proof (crawler_Some _ _ Hc) as (_ & _ & Heq).
  assert (∀ final, isAllowedHost (config c) final = true) as Hall.
  { intros final. unfold isAllowedHost. rewrite Heq. cbn.
    by rewrite decide_True. }
  split; [done|]. intros final Herr.
  destruct (CrawlURLResults.crawlURL_outcome c w v urlStr depth)
    as [[_ Hrun]|[(err & _ & Hrun & Hwhy)|(base & page & Hpage)]].
  - rewrite Hrun in Hcrawl. by injection Hcrawl as <- <-.
  - rewrite Hrun in Hcrawl. injection Hcrawl as <- <-.
    injection Herr as ->. destruct Hwhy as (resp & _ & _ & _ & Hhost).
    by rewrite Hall in Hhost.
  - rewrite (CrawlURLFacts.crawlURL_rendered _ _ v _ _ _ _ Hpage) in Hcrawl.
    by injection Hcrawl as <- <-.
Qed.

End WithNetUrl.

Lemma main_allows_every_host_witness :
  (∀ final,
     isAllowedHost (L := GoUrl.lib)
       {| MaxDepth := 2; RateLimit := 1000000000; MaxWorkers := 5;
          AllowedHost := "" |} final = true)
  ∧ ∀ final,
      Error
        {| URL := Examples.seed; Content := "Hello world";
           Links := ["https://other.com/b"]; Depth := 0;
           Summary := "A greeting."; Error := None |}
      ≠ Some (ErrNonAllowedHost final).
Proof.
  apply (main_allows_every_host
           {| Main.MaxDepth := 2; Main.RateLimit := 1; Main.MaxWorkers := 5 |}
           {| config := {| MaxDepth := 2; RateLimit := 1000000000;
                           MaxWorkers := 5; AllowedHost := "" |};
              visited := ∅; summarizer := Main.ollamaSummarizer |}
           Examples.elsewhere ∅ Examples.seed 0 _ {["https://other.com/b"]}).
  - vm_compute. reflexivity.
  - vm_compute. reflexivity.
Defined.

End MainFacts.
